(** * Response capture and normalisation pipeline of the umpire scorecard scrapers

    A shallow embedding of the Python code of [umpire_scorecard_scraper.py]
    and [simple_umpire_scraper.py]: the response classifier
    ([handle_response]), the record extractor (the processing loop of
    [get_umpire_data_async] and [scrape_umpire_page]), the date filter
    ([filter_by_date_range]) and the flattener ([flatten_dict]).

    Conventions.  A Python [str] is a Rocq [string] read as a sequence of code
    points below 256.  A Python exception is a [Raise] result.  Python objects
    that are mutated in place live in an explicit heap.  The clock
    ([datetime.now]) and the date parser of dateutil are inputs of the model.
    Logging is modelled in the date filter only. *)

From Stdlib Require Import ZArith Ascii String List Bool Lia.
From stdpp Require Import base option list strings pretty.

Local Open Scope string_scope.
Local Open Scope list_scope.
Local Open Scope Z_scope.

(** ** Exceptions and results

    The exceptions the modelled code can meet: [AttributeError] from
    [.items()] on a value that is no mapping, [TypeError] from comparing a
    naive with an aware datetime, [ValueError] (and [OverflowError]) from a
    date parser, [OSError] from writing a file. *)

Inductive exn := AttributeError | TypeError | ValueError | OverflowError | OSError.

Inductive result (A : Type) :=
| Ok (a : A)
| Raise (e : exn).
Arguments Ok {A} a.
Arguments Raise {A} e.

Definition rbind {A B} (r : result A) (f : A -> result B) : result B :=
  match r with
  | Ok a => f a
  | Raise e => Raise e
  end.

Notation "'try!' x := c1 'in' c2" := (rbind c1 (fun x => c2))
  (at level 10, x name, c1 at level 100, c2 at level 200).

Definition is_ok {A} (r : result A) : bool :=
  match r with Ok _ => true | Raise _ => false end.

(** ** JSON values, as [response.json()] returns them

    A mapping is a Python [dict]: an association list in insertion order
    whose keys are pairwise distinct ([wf_json]).  A float is carried by its
    Python [repr], which is all the pipeline ever observes of it. *)

#[warnings="-register-all"]
Inductive json :=
| JNull
| JBool (b : bool)
| JInt (n : Z)
| JFloat (repr : string)
| JStr (s : string)
| JList (l : list json)
| JDict (kvs : list (string * json)).

Definition dict := list (string * json).

Section json_induction.
Variable P : json -> Prop.
Hypothesis Hnull : P JNull.
Hypothesis Hbool : forall b, P (JBool b).
Hypothesis Hint : forall n, P (JInt n).
Hypothesis Hfloat : forall r, P (JFloat r).
Hypothesis Hstr : forall s, P (JStr s).
Hypothesis Hlist : forall l, Forall P l -> P (JList l).
Hypothesis Hdict : forall kvs, Forall (fun kv => P (snd kv)) kvs -> P (JDict kvs).

Fixpoint json_nested_ind (j : json) : P j :=
  match j with
  | JNull => Hnull
  | JBool b => Hbool b
  | JInt n => Hint n
  | JFloat r => Hfloat r
  | JStr s => Hstr s
  | JList l =>
      Hlist l ((fix elems (l : list json) : Forall P l :=
                  match l with
                  | [] => List.Forall_nil P
                  | x :: l' => List.Forall_cons P x l' (json_nested_ind x) (elems l')
                  end) l)
  | JDict kvs =>
      Hdict kvs ((fix entries (kvs : list (string * json))
                    : Forall (fun kv => P (snd kv)) kvs :=
                    match kvs with
                    | [] => List.Forall_nil _
                    | kv :: kvs' =>
                        List.Forall_cons _ kv kvs' (json_nested_ind (snd kv)) (entries kvs')
                    end) kvs)
  end.
End json_induction.

(** [isinstance(v, dict)] and [isinstance(v, list)]. *)
Definition is_dict (v : json) : bool :=
  match v with JDict _ => true | _ => false end.

Definition is_list (v : json) : bool :=
  match v with JList _ => true | _ => false end.

(** A value that is neither a mapping nor a sequence. *)
Definition is_scalar (v : json) : bool := negb (is_dict v) && negb (is_list v).

(** Python truth value of a string and of a JSON value. *)
Definition truthy_str (s : string) : bool :=
  match s with EmptyString => false | _ => true end.

Definition truthy (v : json) : bool :=
  match v with
  | JNull => false
  | JBool b => b
  | JInt n => negb (n =? 0)
  | JFloat r => negb (String.eqb r "0.0" || String.eqb r "-0.0")
  | JStr s => truthy_str s
  | JList l => match l with [] => false | _ => true end
  | JDict kvs => match kvs with [] => false | _ => true end
  end.

(** ** Dictionaries *)

Section dictionaries.
Context {V : Type}.

(** [k in d] and [d[k]] (for a key that is present). *)
Fixpoint dict_get (d : list (string * V)) (k : string) : option V :=
  match d with
  | [] => None
  | (k', v) :: d' => if String.eqb k' k then Some v else dict_get d' k
  end.

(** [d[k] = v]: an existing key keeps its position, a new key goes last. *)
Fixpoint dict_set (d : list (string * V)) (k : string) (v : V) : list (string * V) :=
  match d with
  | [] => [(k, v)]
  | (k', v') :: d' =>
      if String.eqb k' k then (k', v) :: d' else (k', v') :: dict_set d' k v
  end.

(** The pairs of [items] written into [acc] from left to right. *)
Definition dict_insert_all (acc items : list (string * V)) : list (string * V) :=
  fold_left (fun d kv => dict_set d (fst kv) (snd kv)) items acc.

(** [dict(items)]. *)
Definition dict_of_items (items : list (string * V)) : list (string * V) :=
  dict_insert_all [] items.

Definition keys (d : list (string * V)) : list string := map fst d.
End dictionaries.

(** Well-formed values: every mapping has pairwise distinct keys. *)
Fixpoint wf_json (v : json) : Prop :=
  match v with
  | JList l => (fix all (l : list json) : Prop :=
                  match l with [] => True | x :: l' => wf_json x /\ all l' end) l
  | JDict kvs =>
      List.NoDup (map fst kvs) /\
      (fix all (kvs : list (string * json)) : Prop :=
         match kvs with [] => True | kv :: kvs' => wf_json (snd kv) /\ all kvs' end) kvs
  | _ => True
  end.

(** ** [str] and [repr] *)

Definition hex_digit (n : N) : ascii :=
  ascii_of_N (if (n <? 10)%N then 48 + n else 87 + n).

Definition contains_char (c : ascii) (s : string) : bool :=
  existsb (Ascii.eqb c) (list_ascii_of_string s).

(** [repr] of one character inside a string literal quoted with [q]. *)
Definition repr_char (q : ascii) (c : ascii) : string :=
  let n := N_of_ascii c in
  if Ascii.eqb c q || Ascii.eqb c "\"%char then String "\"%char (String c "")
  else if (n =? 9)%N then "\t"
  else if (n =? 10)%N then "\n"
  else if (n =? 13)%N then "\r"
  else if (n <? 32)%N || (n =? 127)%N || ((128 <=? n)%N && (n <=? 160)%N) || (n =? 173)%N
       then String "\"%char (String "x"%char
              (String (hex_digit (n / 16)) (String (hex_digit (n mod 16)) "")))
  else String c "".

Definition dquote : ascii := ascii_of_N 34.

Definition repr_str (s : string) : string :=
  let q := if contains_char "'"%char s && negb (contains_char dquote s)
           then dquote else "'"%char in
  String q (String.concat "" (map (repr_char q) (list_ascii_of_string s))) +:+ String q "".

Definition join_comma (parts : list string) : string := String.concat ", " parts.

Fixpoint py_repr (v : json) : string :=
  match v with
  | JNull => "None"
  | JBool true => "True"
  | JBool false => "False"
  | JInt n => pretty n
  | JFloat r => r
  | JStr s => repr_str s
  | JList l => "[" +:+ join_comma (map py_repr l) +:+ "]"
  | JDict kvs =>
      "{" +:+ join_comma (map (fun kv => repr_str (fst kv) +:+ ": " +:+ py_repr (snd kv)) kvs)
          +:+ "}"
  end.

(** [str(v)]: a string is itself, anything else is its [repr]. *)
Definition py_str (v : json) : string :=
  match v with
  | JStr s => s
  | _ => py_repr v
  end.

(** ** The flattener: [UmpireScorecardScraper.flatten_dict] *)

Section flatten_body.
(** The recursive call [self.flatten_dict(_, _, sep=sep)]. *)
Variable rec : json -> string -> result dict.

(** [for i, item in enumerate(v): items.extend(flatten_dict(item, f"{new_key}_{i}").items())] *)
Fixpoint flatten_elements (new_key : string) (l : list json) (i : nat)
    (items : list (string * json)) : result (list (string * json)) :=
  match l with
  | [] => Ok items
  | item :: l' =>
      try! sub := rec item (new_key +:+ "_" +:+ pretty i) in
      flatten_elements new_key l' (S i) (items ++ sub)
  end.

(** The body of the loop for one entry [k, v], with [new_key] computed. *)
Definition flatten_entry (new_key : string) (v : json)
    (items : list (string * json)) : result (list (string * json)) :=
  match v with
  | JDict _ => try! sub := rec v new_key in Ok (items ++ sub)
  | JList l =>
      match l with
      | JDict _ :: _ => flatten_elements new_key l 0 items
      | _ => Ok (items ++ [(new_key, JStr (py_str v))])
      end
  | _ => Ok (items ++ [(new_key, v)])
  end.

Definition new_key_of (parent_key sep k : string) : string :=
  if truthy_str parent_key then parent_key +:+ sep +:+ k else k.

(** [for k, v in d.items(): ...] *)
Fixpoint flatten_loop (parent_key sep : string) (kvs : list (string * json))
    (items : list (string * json)) : result (list (string * json)) :=
  match kvs with
  | [] => Ok items
  | (k, v) :: rest =>
      try! items' := flatten_entry (new_key_of parent_key sep k) v items in
      flatten_loop parent_key sep rest items'
  end.
End flatten_body.

(** [d.items()] on a value that is not a mapping raises [AttributeError]. *)
Fixpoint flatten_dict (d : json) (parent_key sep : string) {struct d} : result dict :=
  match d with
  | JDict kvs =>
      try! items := flatten_loop (fun v key => flatten_dict v key sep) parent_key sep kvs [] in
      Ok (dict_of_items items)
  | _ => Raise AttributeError
  end.

(** The key of a child value: the child key itself at the root (an empty
    path), else the path, the separator and the child key. *)
Definition join_path (path sep k : string) : string :=
  match path with
  | EmptyString => k
  | _ => path +:+ sep +:+ k
  end.

Definition sequence_of_mappings (l : list json) : bool :=
  match l with
  | [] => false
  | _ => forallb is_dict l
  end.

(** The pairs [flatten_dict] collects in [items] on a record it goes
    through, before [dict(items)] makes a row of them.  As in the code, the
    position of an element is joined with an underscore (line 252). *)
Section collected_body.
Variable pairs : string -> json -> list (string * json).

Fixpoint collected_elements (path : string) (l : list json) (i : nat)
    : list (string * json) :=
  match l with
  | [] => []
  | x :: l' => pairs (path +:+ "_" +:+ pretty i) x ++ collected_elements path l' (S i)
  end.
End collected_body.

Fixpoint collected_pairs (sep path : string) (v : json) {struct v} : list (string * json) :=
  match v with
  | JDict kvs =>
      flat_map (fun kv => collected_pairs sep (join_path path sep (fst kv)) (snd kv)) kvs
  | JList l =>
      if sequence_of_mappings l
      then collected_elements (collected_pairs sep) path l 0
      else [(path, JStr (py_str v))]
  | _ => [(path, v)]
  end.

(** The flattening rule in the words of the specification (4.4), applied
    depth-first to a value stored under [path]: a mapping recurses with the
    child key joined by the separator; a sequence of mappings recurses on
    each element with key [path + sep + index], zero-based; any other
    sequence is stored as its string representation under [path]; a scalar
    or null is stored as it is.  The row is the mapping of these pairs,
    later writes overwriting earlier ones.  A sequence that mixes mappings
    and other values falls under neither case of the rule; it is stored as a
    string here. *)
Section rule_body.
Variable pairs : string -> json -> list (string * json).

Fixpoint rule_elements (sep path : string) (l : list json) (i : nat)
    : list (string * json) :=
  match l with
  | [] => []
  | x :: l' => pairs (path +:+ sep +:+ pretty i) x ++ rule_elements sep path l' (S i)
  end.
End rule_body.

Fixpoint rule_pairs (sep path : string) (v : json) {struct v} : list (string * json) :=
  match v with
  | JDict kvs =>
      flat_map (fun kv => rule_pairs sep (join_path path sep (fst kv)) (snd kv)) kvs
  | JList l =>
      if sequence_of_mappings l
      then rule_elements (rule_pairs sep) sep path l 0
      else [(path, JStr (py_str v))]
  | _ => [(path, v)]
  end.

Definition flatten_rule (sep : string) (record : json) : dict :=
  dict_of_items (rule_pairs sep EmptyString record).

(** Every sequence the rule descends into holds only mappings; the others
    hold no mapping at all. *)
Fixpoint homogeneous (v : json) : bool :=
  match v with
  | JDict kvs => forallb (fun kv => homogeneous (snd kv)) kvs
  | JList l =>
      (forallb is_dict l && forallb homogeneous l) || forallb (fun x => negb (is_dict x)) l
  | _ => true
  end.

(** ** Strings *)

(** [s.lower()] on code points below 256. *)
Definition lower_char (c : ascii) : ascii :=
  let n := N_of_ascii c in
  if ((65 <=? n) && (n <=? 90))%N || ((192 <=? n) && (n <=? 222) && negb (n =? 215))%N
  then ascii_of_N (n + 32)
  else c.

Fixpoint lower (s : string) : string :=
  match s with
  | EmptyString => EmptyString
  | String c s' => String (lower_char c) (lower s')
  end.

(** [needle in haystack]. *)
Fixpoint contains (needle haystack : string) : bool :=
  String.prefix needle haystack ||
  match haystack with
  | EmptyString => false
  | String _ rest => contains needle rest
  end.

(** [s[:n]]. *)
Fixpoint take_chars (n : nat) (s : string) : string :=
  match n, s with
  | S n', String c s' => String c (take_chars n' s')
  | _, _ => EmptyString
  end.

(** ** The response classifier: [handle_response] *)

(** What the browser shows of a response: [body] is the value of
    [await response.json()], [None] when that call raises. *)
Record response := {
  resp_url : string;
  resp_status : Z;
  resp_headers : list (string * string);
  resp_body : option json;
}.

(** [response.headers.get('content-type', '')]. *)
Fixpoint header_get (headers : list (string * string)) (name default : string) : string :=
  match headers with
  | [] => default
  | (k, v) :: rest => if String.eqb k name then v else header_get rest name default
  end.

Definition content_type_lower (r : response) : string :=
  lower (header_get (resp_headers r) "content-type" EmptyString).

(** An entry of [responses_data] (simple scraper) or [responses] (scorecard
    scraper): the captured URL and body. *)
Record captured := {
  cap_url : string;
  cap_data : json;
}.

(** [simple_umpire_scraper.py], lines 73-83. *)
Definition simple_handle_response (r : response) (responses_data : list captured)
    : list captured :=
  if contains "json" (content_type_lower r)
  then match resp_body r with
       | Some json_data =>
           responses_data ++ [{| cap_url := resp_url r; cap_data := json_data |}]
       | None => responses_data
       end
  else responses_data.

(** [umpire_scorecard_scraper.py], lines 83-97. *)
Definition scorecard_handle_response (r : response) (responses : list captured)
    : list captured :=
  if existsb (fun keyword => contains keyword (lower (resp_url r))) ["api"; "data"; "json"]
     && (resp_status r =? 200)
  then if contains "json" (content_type_lower r)
       then match resp_body r with
            | Some json_data =>
                responses ++ [{| cap_url := resp_url r; cap_data := json_data |}]
            | None => responses
            end
       else responses
  else responses.

(** A response is captured when the handler adds an entry for it. *)
Definition captures (handler : response -> list captured -> list captured)
    (r : response) : bool :=
  negb (Nat.eqb (length (handler r [])) 0).

(** ** Dates: [datetime] *)

(** A [datetime.datetime]; [utcoffset] is [None] for a naive value and the
    offset in seconds for an aware one. *)
Record datetime := {
  year : Z; month : Z; day : Z;
  hour : Z; minute : Z; second : Z; microsecond : Z;
  utcoffset : option Z;
}.

Definition naive_date (y m d : Z) : datetime :=
  {| year := y; month := m; day := d; hour := 0; minute := 0; second := 0;
     microsecond := 0; utcoffset := None |}.

Definition datetime_min : datetime := naive_date 1 1 1.

Definition datetime_max : datetime :=
  {| year := 9999; month := 12; day := 31; hour := 23; minute := 59; second := 59;
     microsecond := 999999; utcoffset := None |}.

Definition is_leap (y : Z) : bool :=
  (y mod 4 =? 0) && (negb (y mod 100 =? 0) || (y mod 400 =? 0)).

Definition days_in_month (y m : Z) : Z :=
  if (m =? 2) && is_leap y then 29
  else nth (Z.to_nat m) [0; 31; 28; 31; 30; 31; 30; 31; 31; 30; 31; 30; 31] 0.

Definition days_before_year (y : Z) : Z :=
  let p := y - 1 in p * 365 + p / 4 - p / 100 + p / 400.

Definition days_before_month (y m : Z) : Z :=
  nth (Z.to_nat m) [0; 0; 31; 59; 90; 120; 151; 181; 212; 243; 273; 304; 334] 0
  + (if (2 <? m) && is_leap y then 1 else 0).

Definition ymd2ord (y m d : Z) : Z :=
  days_before_year y + days_before_month y m + d.

(** The fields of a value, compared as Python compares the tuples. *)
Definition fields (a : datetime) : list Z :=
  [year a; month a; day a; hour a; minute a; second a; microsecond a].

Fixpoint lex_le (a b : list Z) : bool :=
  match a, b with
  | x :: a', y :: b' => (x <? y) || ((x =? y) && lex_le a' b')
  | [], _ => true
  | _ :: _, [] => false
  end.

(** Microseconds since 0001-01-01T00:00:00 of the fields, less the offset. *)
Definition utc_microseconds (a : datetime) (offset : Z) : Z :=
  ((((ymd2ord (year a) (month a) (day a) * 24 + hour a) * 60 + minute a) * 60
    + second a - offset) * 1000000) + microsecond a.

(** [a <= b]: comparing a naive with an aware value raises [TypeError]. *)
Definition datetime_le (a b : datetime) : result bool :=
  match utcoffset a, utcoffset b with
  | None, None => Ok (lex_le (fields a) (fields b))
  | Some oa, Some ob =>
      if oa =? ob then Ok (lex_le (fields a) (fields b))
      else Ok (utc_microseconds a oa <=? utc_microseconds b ob)
  | _, _ => Raise TypeError
  end.

(** [a <= b <= c]: the second comparison is made only when the first holds. *)
Definition datetime_between (a b c : datetime) : result bool :=
  try! first := datetime_le a b in
  if first then datetime_le b c else Ok false.

(** ** [datetime.strptime]

    The format becomes a regular expression that is matched at the start of
    the string, alternatives in order and with backtracking; the match must
    reach the end of the string, and the fields must make a valid date. *)

Inductive pat :=
| PChar (c : ascii)
| PRange (lo hi : ascii).

Definition pat_matches (p : pat) (c : ascii) : bool :=
  match p with
  | PChar c' => Ascii.eqb c c'
  | PRange lo hi => ((N_of_ascii lo <=? N_of_ascii c) && (N_of_ascii c <=? N_of_ascii hi))%N
  end.

Definition digit : pat := PRange "0" "9".

(** The alternatives of a directive, in the order of the expression. *)
Definition directive_alternatives (name : ascii) : option (list (list pat)) :=
  if Ascii.eqb name "Y" then Some [[digit; digit; digit; digit]]
  else if Ascii.eqb name "m" then
    Some [[PChar "1"; PRange "0" "2"]; [PChar "0"; PRange "1" "9"]; [PRange "1" "9"]]
  else if Ascii.eqb name "d" then
    Some [[PChar "3"; PRange "0" "1"]; [PRange "1" "2"; digit]; [PChar "0"; PRange "1" "9"];
          [PRange "1" "9"]; [PChar " "; PRange "1" "9"]]
  else if Ascii.eqb name "H" then
    Some [[PChar "2"; PRange "0" "3"]; [PRange "0" "1"; digit]; [digit]]
  else if Ascii.eqb name "M" then
    Some [[PRange "0" "5"; digit]; [digit]]
  else if Ascii.eqb name "S" then
    Some [[PChar "6"; PRange "0" "1"]; [PRange "0" "5"; digit]; [digit]]
  else None.

Inductive token :=
| Directive (name : ascii)
| Literal (c : ascii)
| Whitespace.

(** White space, as the expression [\s] sees it below code point 256. *)
Definition is_space (c : ascii) : bool :=
  let n := N_of_ascii c in
  (((9 <=? n) && (n <=? 13)) || ((28 <=? n) && (n <=? 32)) || (n =? 133) || (n =? 160))%N.

Fixpoint tokens_of_format (fmt : string) : list token :=
  match fmt with
  | EmptyString => []
  | String c rest =>
      if Ascii.eqb c "%" then
        match rest with
        | String name rest' => Directive name :: tokens_of_format rest'
        | EmptyString => [Literal c]
        end
      else if is_space c then
        match tokens_of_format rest with
        | Whitespace :: toks => Whitespace :: toks
        | toks => Whitespace :: toks
        end
      else Literal c :: tokens_of_format rest
  end.

(** One alternative against the start of the string: the text it matched
    and what is left. *)
Fixpoint match_alternative (alt : list pat) (s : string) : option (string * string) :=
  match alt with
  | [] => Some (EmptyString, s)
  | p :: alt' =>
      match s with
      | String c s' =>
          if pat_matches p c
          then match match_alternative alt' s' with
               | Some (text, rest) => Some (String c text, rest)
               | None => None
               end
          else None
      | EmptyString => None
      end
  end.

Definition groups := list (ascii * string).

Section matching.
(** What is left of the expression after the current token. *)
Variable continue : string -> option (groups * string).

Fixpoint try_alternatives (name : ascii) (alts : list (list pat)) (s : string)
    : option (groups * string) :=
  match alts with
  | [] => None
  | alt :: alts' =>
      match match_alternative alt s with
      | Some (text, rest) =>
          match continue rest with
          | Some (gs, final) => Some ((name, text) :: gs, final)
          | None => try_alternatives name alts' s
          end
      | None => try_alternatives name alts' s
      end
  end.

(** [\s+]: as much white space as possible, giving back one character at
    a time. *)
Fixpoint match_spaces (s : string) : option (groups * string) :=
  match s with
  | String c s' =>
      if is_space c
      then match match_spaces s' with
           | Some r => Some r
           | None => continue s'
           end
      else None
  | EmptyString => None
  end.
End matching.

Fixpoint match_tokens (toks : list token) (s : string) : option (groups * string) :=
  match toks with
  | [] => Some ([], s)
  | Directive name :: toks' =>
      match directive_alternatives name with
      | Some alts => try_alternatives (match_tokens toks') name alts s
      | None => None
      end
  | Literal c :: toks' =>
      match s with
      | String c' s' =>
          if Ascii.eqb (lower_char c) (lower_char c') then match_tokens toks' s' else None
      | EmptyString => None
      end
  | Whitespace :: toks' => match_spaces (match_tokens toks') s
  end.

(** [int(text)] of a matched group: digits, after an optional blank. *)
Fixpoint int_of_digits (acc : Z) (text : string) : Z :=
  match text with
  | EmptyString => acc
  | String c rest =>
      if pat_matches digit c
      then int_of_digits (acc * 10 + (Z.of_N (N_of_ascii c) - 48)) rest
      else int_of_digits acc rest
  end.

Fixpoint group_value (gs : groups) (name : ascii) (default : Z) : Z :=
  match gs with
  | [] => default
  | (n, text) :: gs' =>
      if Ascii.eqb n name then int_of_digits 0 text else group_value gs' name default
  end.

(** [datetime.strptime(s, fmt)]; [None] stands for [ValueError]. *)
Definition strptime (s fmt : string) : option datetime :=
  match match_tokens (tokens_of_format fmt) s with
  | Some (gs, EmptyString) =>
      let y := group_value gs "Y" 1900 in
      let m := group_value gs "m" 1 in
      let d := group_value gs "d" 1 in
      let H := group_value gs "H" 0 in
      let M := group_value gs "M" 0 in
      let S := group_value gs "S" 0 in
      if (1 <=? y) && (y <=? 9999) && (1 <=? m) && (m <=? 12)
         && (1 <=? d) && (d <=? days_in_month y m)
         && (H <? 24) && (M <? 60) && (S <? 60)
      then Some {| year := y; month := m; day := d; hour := H; minute := M; second := S;
                   microsecond := 0; utcoffset := None |}
      else None
  | _ => None
  end.

(** ** Logging *)

Inductive log_level := INFO | WARNING | ERROR.

(** A log record: its level and the fixed part of its message. *)
Definition log_record : Type := log_level * string.

(** ** The date filter: [filter_by_date_range] *)

(** [start_date or end_date]: a bound counts when it is a non-empty string. *)
Definition bound_given (bound : option string) : bool :=
  match bound with
  | Some s => truthy_str s
  | None => false
  end.

Section filter_loop.
(** The date an item resolves to, if any. *)
Variable item_date : dict -> option datetime.
Variables start_dt end_dt : datetime.

(** [if item_date and start_dt <= item_date <= end_dt: filtered_data.append(item)] *)
Definition in_range (item : dict) : result bool :=
  match item_date item with
  | Some d => datetime_between start_dt d end_dt
  | None => Ok false
  end.

Fixpoint filter_loop (data filtered_data : list dict) : result (list dict) :=
  match data with
  | [] => Ok filtered_data
  | item :: rest =>
      try! keep := in_range item in
      filter_loop rest (if keep then filtered_data ++ [item] else filtered_data)
  end.
End filter_loop.

(** *** [SimpleUmpireScraper.filter_by_date_range] *)

Definition simple_date_fields : list string :=
  ["date"; "game_date"; "Date"; "gameDate"; "Game Date"].

Definition simple_formats : list string :=
  ["%Y-%m-%d"; "%m/%d/%Y"; "%d/%m/%Y"; "%Y-%m-%d %H:%M:%S"].

(** The first format under which [date_str[:10]] parses. *)
Fixpoint first_format (date_str : string) (formats : list string) : option datetime :=
  match formats with
  | [] => None
  | fmt :: rest =>
      match strptime (take_chars 10 date_str) fmt with
      | Some d => Some d
      | None => first_format date_str rest
      end
  end.

Fixpoint simple_item_date_in (date_fields : list string) (item : dict) : option datetime :=
  match date_fields with
  | [] => None
  | field :: rest =>
      match dict_get item field with
      | Some v =>
          if truthy v
          then match first_format (py_str v) simple_formats with
               | Some d => Some d
               | None => simple_item_date_in rest item
               end
          else simple_item_date_in rest item
      | None => simple_item_date_in rest item
      end
  end.

Definition simple_item_date : dict -> option datetime :=
  simple_item_date_in simple_date_fields.

(** [datetime.strptime(bound, '%Y-%m-%d') if bound else default]. *)
Definition simple_bound (bound : option string) (default : datetime) : option datetime :=
  match bound with
  | Some s => if truthy_str s then strptime s "%Y-%m-%d" else Some default
  | None => Some default
  end.

Definition simple_filter_by_date_range (data : list dict) (start_date end_date : option string)
    : list log_record * result (list dict) :=
  if negb (bound_given start_date || bound_given end_date) then ([], Ok data)
  else
    match simple_bound start_date datetime_min with
    | None => ([(ERROR, "Invalid date format")], Ok data)
    | Some start_dt =>
        match simple_bound end_date datetime_max with
        | None => ([(ERROR, "Invalid date format")], Ok data)
        | Some end_dt =>
            match filter_loop simple_item_date start_dt end_dt data [] with
            | Ok filtered_data => ([(INFO, "Filtered to")], Ok filtered_data)
            | Raise e => ([], Raise e)
            end
        end
    end.

(** *** [UmpireScorecardScraper.filter_by_date_range] *)

Section scorecard_filter.
(** [dateutil.parser.parse], a library outside the repository. *)
Variable dateutil_parse : string -> result datetime.

Definition scorecard_date_fields : list string :=
  ["date"; "game_date"; "Date"; "gameDate"; "created_at"; "timestamp"].

Fixpoint scorecard_item_date_in (date_fields : list string) (item : dict)
    : option datetime :=
  match date_fields with
  | [] => None
  | field :: rest =>
      match dict_get item field with
      | Some v =>
          match dateutil_parse (py_str v) with
          | Ok d => Some d
          | Raise _ => scorecard_item_date_in rest item
          end
      | None => scorecard_item_date_in rest item
      end
  end.

Definition scorecard_item_date : dict -> option datetime :=
  scorecard_item_date_in scorecard_date_fields.

(** [date_parser.parse(bound) if bound else default]. *)
Definition scorecard_bound (bound : option string) (default : datetime) : result datetime :=
  match bound with
  | Some s => if truthy_str s then dateutil_parse s else Ok default
  | None => Ok default
  end.

Definition scorecard_filter_by_date_range (data : list dict)
    (start_date end_date : option string) : list log_record * result (list dict) :=
  if negb (bound_given start_date || bound_given end_date) then ([], Ok data)
  else
    match scorecard_bound start_date datetime_min with
    | Raise e => ([], Raise e)
    | Ok start_dt =>
        match scorecard_bound end_date datetime_max with
        | Raise e => ([], Raise e)
        | Ok end_dt =>
            match filter_loop scorecard_item_date start_dt end_dt data [] with
            | Ok filtered_data => ([(INFO, "Filtered")], Ok filtered_data)
            | Raise e => ([], Raise e)
            end
        end
    end.
End scorecard_filter.

(** What [dateutil.parser.parse] returns on the strings of the examples
    below; on any other string this stand-in raises, as the library does on
    a string that is no date. *)
Definition aware_datetime (y m d H M S offset : Z) : datetime :=
  {| year := y; month := m; day := d; hour := H; minute := M; second := S;
     microsecond := 0; utcoffset := Some offset |}.

Definition dateutil_table : list (string * datetime) :=
  [("2023-12-31", naive_date 2023 12 31);
   ("2024-01-01", naive_date 2024 1 1);
   ("2024-06-15", naive_date 2024 6 15);
   ("2024-12-31", naive_date 2024 12 31);
   ("2024-06-15T12:00:00Z", aware_datetime 2024 6 15 12 0 0 0)].

Definition dateutil_sample (s : string) : result datetime :=
  match dict_get dateutil_table s with
  | Some d => Ok d
  | None => Raise ValueError
  end.

(** ** Objects in place: the heap

    [response.json()] builds fresh objects; a mapping or a sequence is held
    by reference, so a write through one reference is seen through all. *)

Definition loc := nat.

Inductive val :=
| VNone
| VBool (b : bool)
| VInt (n : Z)
| VFloat (repr : string)
| VStr (s : string)
| VRef (l : loc).

Inductive obj :=
| ODict (entries : list (string * val))
| OList (elems : list val).

#[global] Instance val_eq_dec : EqDecision val.
Proof. solve_decision. Defined.

Definition heap := list obj.

(** The objects of a JSON value, allocated at the end of the heap. *)
Fixpoint alloc (j : json) (h : heap) {struct j} : val * heap :=
  match j with
  | JNull => (VNone, h)
  | JBool b => (VBool b, h)
  | JInt n => (VInt n, h)
  | JFloat r => (VFloat r, h)
  | JStr s => (VStr s, h)
  | JList l =>
      let '(vs, h') :=
        (fix elems (l : list json) (h : heap) : list val * heap :=
           match l with
           | [] => ([], h)
           | x :: l' =>
               let '(v, h1) := alloc x h in
               let '(vs, h2) := elems l' h1 in
               (v :: vs, h2)
           end) l h in
      (VRef (length h'), h' ++ [OList vs])
  | JDict kvs =>
      let '(es, h') :=
        (fix entries (kvs : list (string * json)) (h : heap)
           : list (string * val) * heap :=
           match kvs with
           | [] => ([], h)
           | (k, x) :: kvs' =>
               let '(v, h1) := alloc x h in
               let '(es, h2) := entries kvs' h1 in
               ((k, v) :: es, h2)
           end) kvs h in
      (VRef (length h'), h' ++ [ODict es])
  end.

(** The JSON value a heap value stands for, read to a given depth. *)
Fixpoint read (depth : nat) (h : heap) (v : val) : option json :=
  match v with
  | VNone => Some JNull
  | VBool b => Some (JBool b)
  | VInt n => Some (JInt n)
  | VFloat r => Some (JFloat r)
  | VStr s => Some (JStr s)
  | VRef l =>
      match depth with
      | O => None
      | S depth' =>
          match h !! l with
          | Some (OList vs) =>
              option_map JList
                (fold_right (fun v acc =>
                               match read depth' h v, acc with
                               | Some j, Some js => Some (j :: js)
                               | _, _ => None
                               end) (Some []) vs)
          | Some (ODict es) =>
              option_map JDict
                (fold_right (fun kv acc =>
                               match read depth' h (snd kv), acc with
                               | Some j, Some js => Some ((fst kv, j) :: js)
                               | _, _ => None
                               end) (Some []) es)
          | None => None
          end
      end
  end.

(** [isinstance(v, dict)] and [isinstance(v, list)] on the heap. *)
Definition is_dict_val (h : heap) (v : val) : bool :=
  match v with
  | VRef l => match h !! l with Some (ODict _) => true | _ => false end
  | _ => false
  end.

Definition is_list_val (h : heap) (v : val) : bool :=
  match v with
  | VRef l => match h !! l with Some (OList _) => true | _ => false end
  | _ => false
  end.

(** [target[k] = v] for a reference to a mapping. *)
Definition set_item (h : heap) (target : val) (k : string) (v : val) : heap :=
  match target with
  | VRef l =>
      match h !! l with
      | Some (ODict es) => <[l := ODict (dict_set es k v)]> h
      | _ => h
      end
  | _ => h
  end.

(** [target[k]] for a reference to a mapping. *)
Definition get_item (h : heap) (target : val) (k : string) : option val :=
  match target with
  | VRef l =>
      match h !! l with
      | Some (ODict es) => dict_get es k
      | _ => None
      end
  | _ => None
  end.

(** ** The record extractor

    The state of the processing loop: the heap and the number of readings
    of the clock made so far. *)
Record pstate := {
  st_heap : heap;
  st_clock : nat;
}.

(** An entry of [responses] with its body on the heap. *)
Record hresponse := {
  hr_url : string;
  hr_data : val;
}.

Section extractor.
(** [datetime.now().isoformat()] at the n-th reading of the clock. *)
Variable now_isoformat : nat -> string.
Variable umpire_name : string.

(** [umpire_scorecard_scraper.py], lines 146-148 and 151-153. *)
Definition scorecard_tag (url : string) (st : pstate) (item : val) : pstate :=
  let h1 := set_item (st_heap st) item "umpire_name" (VStr umpire_name) in
  let h2 := set_item h1 item "scraped_at" (VStr (now_isoformat (st_clock st))) in
  let h3 := set_item h2 item "source_url" (VStr url) in
  {| st_heap := h3; st_clock := S (st_clock st) |}.

(** [simple_umpire_scraper.py], lines 119-120 and 123-124. *)
Definition simple_tag (url : string) (st : pstate) (item : val) : pstate :=
  let h1 := set_item (st_heap st) item "umpire_name" (VStr umpire_name) in
  let h2 := set_item h1 item "scraped_timestamp" (VStr (now_isoformat (st_clock st))) in
  {| st_heap := h2; st_clock := S (st_clock st) |}.

Section loop.
Variable tag : string -> pstate -> val -> pstate.

(** [for item in response['data']: if isinstance(item, dict): ...] *)
Fixpoint process_items (url : string) (items : list val) (st : pstate)
    (collected_data : list val) : list val * pstate :=
  match items with
  | [] => (collected_data, st)
  | item :: rest =>
      if is_dict_val (st_heap st) item
      then process_items url rest (tag url st item) (collected_data ++ [item])
      else process_items url rest st collected_data
  end.

(** The body of the loop over the captured responses. *)
Definition process_response (r : hresponse) (st : pstate) (collected_data : list val)
    : list val * pstate :=
  match hr_data r with
  | VRef l =>
      match st_heap st !! l with
      | Some (OList items) => process_items (hr_url r) items st collected_data
      | Some (ODict _) => (collected_data ++ [hr_data r], tag (hr_url r) st (hr_data r))
      | None => (collected_data, st)
      end
  | _ => (collected_data, st)
  end.

Fixpoint process_responses (responses : list hresponse) (st : pstate)
    (collected_data : list val) : list val * pstate :=
  match responses with
  | [] => (collected_data, st)
  | r :: rest =>
      let '(collected_data', st') := process_response r st collected_data in
      process_responses rest st' collected_data'
  end.
End loop.

(** The records of one captured response. *)
Definition scorecard_extract (r : hresponse) (st : pstate) : list val * pstate :=
  process_response scorecard_tag r st [].

Definition simple_extract (r : hresponse) (st : pstate) : list val * pstate :=
  process_response simple_tag r st [].
End extractor.

(** A captured response with its body freshly allocated. *)
Definition load_response (c : captured) (h : heap) : hresponse * heap :=
  let '(v, h') := alloc (cap_data c) h in
  ({| hr_url := cap_url c; hr_data := v |}, h').

(** ** Predicates and sample values of the statements *)

(** A property of the children of a value. *)
Definition on_children (P : json -> Prop) (v : json) : Prop :=
  match v with
  | JList l => Forall P l
  | JDict kvs => Forall (fun kv => P (snd kv)) kvs
  | _ => True
  end.

(** A row whose values are all scalars. *)
Definition scalar_row (r : list (string * json)) : Prop :=
  Forall (fun kv => is_scalar (snd kv) = true) r.

(** What a recursive call of the flattener promises on one value: rows of
    scalars, no exception but [AttributeError], the row of the pairs
    collected. *)
Definition rec_scalar (rec : json -> string -> result dict) (v : json) : Prop :=
  forall key r, rec v key = Ok r -> scalar_row r.

Definition rec_attribute_error (rec : json -> string -> result dict) (v : json) : Prop :=
  forall key e, rec v key = Raise e -> e = AttributeError.

Definition rec_rule (sep : string) (rec : json -> string -> result dict) (v : json) : Prop :=
  forall key, is_dict v = true -> homogeneous v = true ->
              rec v key = Ok (dict_of_items (collected_pairs sep key v)).

(** [items'] and [items ++ more] build the same dictionary. *)
Definition extends_by (items' items more : list (string * json)) : Prop :=
  forall acc, dict_insert_all acc items' = dict_insert_all acc (items ++ more).

Definition nested_mapping_record : json := JDict [("a", JDict [("b", JInt 1)])].

Definition sequence_of_mappings_record : json :=
  JDict [("a", JList [JDict [("x", JInt 1)]; JDict [("x", JInt 2)]])].

Definition mixed_values_record : json :=
  JDict [("game", JDict [("id", JInt 7); ("teams", JList [JStr "NYY"; JStr "BOS"])]);
         ("calls", JList [JDict [("zone", JInt 1)]; JDict [("zone", JInt 2)]]);
         ("notes", JList []);
         ("date", JStr "2024-06-15")].

Definition flat_row_example : dict :=
  [("id", JInt 7); ("umpire_name", JStr "Pat Hoberg"); ("accuracy", JFloat "94.2");
   ("notes", JNull); ("final", JBool true)].

Definition not_found_api_response : response :=
  {| resp_url := "https://umpscorecards.com/api/umpires/unknown";
     resp_status := 404;
     resp_headers := [("content-type", "application/json")];
     resp_body := Some (JDict [("error", JStr "Not Found")]) |}.

(** Between naive values the comparison is the order of the fields. *)
Definition naive_between (a b c : datetime) : bool :=
  lex_le (fields a) (fields b) && lex_le (fields b) (fields c).

(** The test of the filter loop, when no comparison raises. *)
Definition kept (item_date : dict -> option datetime) (start_dt end_dt : datetime)
    (item : dict) : bool :=
  match in_range item_date start_dt end_dt item with
  | Ok b => b
  | Raise _ => false
  end.

Definition dated (s : string) : dict := [("id", JInt 1); ("date", JStr s)].

(** The provenance a record carries after it was tagged for [url], the
    clock having been read [clock0] times before the response. *)
Definition scorecard_provenance (now_isoformat : nat -> string) (umpire_name url : string)
    (clock0 : nat) (st : pstate) (x : val) : Prop :=
  get_item (st_heap st) x "umpire_name" = Some (VStr umpire_name) /\
  get_item (st_heap st) x "source_url" = Some (VStr url) /\
  exists n, (clock0 <= n < st_clock st)%nat /\
            get_item (st_heap st) x "scraped_at" = Some (VStr (now_isoformat n)).

Definition simple_provenance (now_isoformat : nat -> string) (umpire_name url : string)
    (clock0 : nat) (st : pstate) (x : val) : Prop :=
  get_item (st_heap st) x "umpire_name" = Some (VStr umpire_name) /\
  exists n, (clock0 <= n < st_clock st)%nat /\
            get_item (st_heap st) x "scraped_timestamp" = Some (VStr (now_isoformat n)).

(** The keys a tagging step writes. *)
Definition scorecard_keys : list string := ["umpire_name"; "scraped_at"; "source_url"].
Definition simple_keys : list string := ["umpire_name"; "scraped_timestamp"].

(** What the loop needs to know of a tagging step. *)
Record tag_spec (tag : string -> pstate -> val -> pstate) (keys : list string)
    (provenance : string -> nat -> pstate -> val -> Prop) : Prop := {
  tag_frame : forall url st item l,
    item <> VRef l -> st_heap (tag url st item) !! l = st_heap st !! l;
  tag_is_dict : forall url st item x,
    is_dict_val (st_heap (tag url st item)) x = is_dict_val (st_heap st) x;
  tag_clock : forall url st item, st_clock (tag url st item) = S (st_clock st);
  tag_other_keys : forall url st item x k,
    ~ In k keys ->
    get_item (st_heap (tag url st item)) x k = get_item (st_heap st) x k;
  tag_self : forall url clock0 st item,
    is_dict_val (st_heap st) item = true -> (clock0 <= st_clock st)%nat ->
    provenance url clock0 (tag url st item) item;
  tag_keeps : forall url clock0 st item x,
    is_dict_val (st_heap st) item = true ->
    provenance url clock0 st x -> provenance url clock0 (tag url st item) x;
}.

Definition three_element_body : json :=
  JList [JDict [("id", JInt 1)]; JDict [("id", JInt 2)]; JStr "not-a-map"].

Definition three_element_capture : captured :=
  {| cap_url := "https://umpscorecards.com/api/umpires/Pat%20Hoberg";
     cap_data := three_element_body |}.

(** A clock that has moved on between two readings. *)
Definition ticking_clock (n : nat) : string :=
  "2025-09-14T10:22:33.00000" +:+ pretty n.

(** The state after the scorecard scraper has extracted the records of
    [three_element_capture], and the records. *)
Definition three_element_run : hresponse * heap * (list val * pstate) :=
  let '(r, h) := load_response three_element_capture [] in
  (r, h, scorecard_extract ticking_clock "Pat Hoberg" r {| st_heap := h; st_clock := 0 |}).

(** Two records carry identical provenance fields. *)
Definition identical_provenance (h : heap) (x y : val) : Prop :=
  forall k, In k ["umpire_name"; "source_url"; "scraped_at"] ->
            get_item h x k = get_item h y k.


(** ** Further functions of the scrapers *)

(** *** When [flatten_dict] goes through

    The values [flatten_dict] calls [.items()] on are all mappings: the
    value itself, its mapping values, and every element of a sequence value
    that starts with a mapping. *)

Section flattenable_body.
Variable rec : json -> bool.

Definition entry_flattenable (v : json) : bool :=
  match v with
  | JDict _ => rec v
  | JList l =>
      match l with
      | JDict _ :: _ => forallb rec l
      | _ => true
      end
  | _ => true
  end.
End flattenable_body.

Fixpoint flattenable (v : json) : bool :=
  match v with
  | JDict kvs => forallb (fun kv => entry_flattenable flattenable (snd kv)) kvs
  | _ => false
  end.

(** *** [UmpireScorecardScraper.save_to_csv]

    [os.path.join], [os.getcwd()] and the timestamp of the default file name
    are inputs.  So is the writer: [to_csv output_path flattened_data disk]
    stands for [pd.DataFrame(flattened_data).to_csv(output_path,
    index=False)] run on the file system [disk]; it gives the file system it
    leaves and either nothing or the exception raised, OSError on a path
    whose directory does not exist.  [save_to_csv] catches nothing: what the
    flattener or the writer raises goes to the caller, and the two info
    messages are not logged. *)

(** [for item in data: flattened_data.append(self.flatten_dict(item))] *)
Fixpoint flatten_all (data : list json) (flattened_data : list dict) : result (list dict) :=
  match data with
  | [] => Ok flattened_data
  | item :: rest =>
      try! flat_item := flatten_dict item EmptyString "_" in
      flatten_all rest (flattened_data ++ [flat_item])
  end.

(** Lines 217-219: the name given, or the default name when none (or an
    empty one) is given. *)
Definition output_filename (timestamp : string) (filename : option string) : string :=
  match filename with
  | Some f => if truthy_str f then f
              else "umpire_scorecards_" +:+ timestamp +:+ ".csv"
  | None => "umpire_scorecards_" +:+ timestamp +:+ ".csv"
  end.

Section save_to_csv.
Variable fs : Type.
Variable path_join : string -> string -> string.
Variable cwd : string.
Variable timestamp : string.
Variable to_csv : string -> list dict -> fs -> fs * result unit.

Definition scorecard_save_to_csv (data : list json) (filename : option string) (disk : fs)
    : list log_record * fs * result (option string) :=
  match data with
  | [] => ([(WARNING, "No data to save")], disk, Ok None)
  | _ =>
      let filename := output_filename timestamp filename in
      match flatten_all data [] with
      | Ok flattened_data =>
          let output_path := path_join cwd filename in
          match to_csv output_path flattened_data disk with
          | (disk', Ok _) =>
              ([(INFO, "Data saved to"); (INFO, "Saved")], disk', Ok (Some output_path))
          | (disk', Raise e) => ([], disk', Raise e)
          end
      | Raise e => ([], disk, Raise e)
      end
  end.
End save_to_csv.

(** A file system as the list of the files written, and a writer that
    fails on the paths under a directory that does not exist. *)
Definition sample_disk : Type := list (string * list dict).

Definition sample_to_csv (output_path : string) (rows : list dict) (disk : sample_disk)
    : sample_disk * result unit :=
  if String.prefix "/home/user/missing_dir/" output_path
  then (disk, Raise OSError)
  else (disk ++ [(output_path, rows)], Ok tt).

Definition sample_path_join (a b : string) : string := a +:+ "/" +:+ b.

(** What a recursive call of the flattener promises: it returns exactly on
    the flattenable values. *)
Definition rec_flattenable (rec : json -> string -> result dict) (v : json) : Prop :=
  forall key, is_ok (rec v key) = flattenable v.

Definition unflattenable_record : json :=
  JDict [("id", JInt 1);
         ("game", JDict [("calls", JList [JDict [("zone", JInt 1)]; JNull])])].

(** Every key of a row lies under [path]: it is [path], the separator and
    something more. *)
Definition keys_under (path sep : string) (row : list (string * json)) : Prop :=
  Forall (fun kv => exists rest, fst kv = path +:+ sep +:+ rest) row.

Definition rec_keys_under (sep : string) (rec : json -> string -> result dict) (v : json)
    : Prop :=
  forall key row, truthy_str key = true -> rec v key = Ok row -> keys_under key sep row.

(** A parser that reads ISO days only and returns naive values: a sample
    of a date parser that never returns an aware datetime. *)
Definition iso_day_parser (s : string) : result datetime :=
  match strptime s "%Y-%m-%d" with
  | Some d => Ok d
  | None => Raise ValueError
  end.

(** The least number of characters a format consumes. *)
Definition min_alternative_length (alts : list (list pat)) : nat :=
  match alts with
  | [] => 0%nat
  | alt :: alts' => fold_right (fun a acc => Nat.min (length a) acc) (length alt) alts'
  end.

Definition token_min_length (t : token) : nat :=
  match t with
  | Directive name =>
      match directive_alternatives name with
      | Some alts => min_alternative_length alts
      | None => 0%nat
      end
  | Literal _ => 1%nat
  | Whitespace => 1%nat
  end.

Definition format_min_length (toks : list token) : nat :=
  fold_right (fun t acc => (token_min_length t + acc)%nat) 0%nat toks.

(** The names of the groups a format captures, in order. *)
Definition directive_names (toks : list token) : list ascii :=
  flat_map (fun t => match t with Directive name => [name] | _ => [] end) toks.

(** The formats of the simple scraper that can match ten characters. *)
Definition simple_day_formats : list string := ["%Y-%m-%d"; "%m/%d/%Y"; "%d/%m/%Y"].

(** *** [handle_request] of the scorecard scraper
    ([umpire_scorecard_scraper.py], lines 72-80) *)

Record request := {
  req_url : string;
  req_method : string;
  req_headers : list (string * string);
  req_resource_type : string;
}.

Definition scorecard_handle_request (q : request) (intercepted_requests : list request)
    : list request :=
  if existsb (fun keyword => contains keyword (lower (req_url q)))
       ["api"; "data"; "json"; "xhr"]
  then intercepted_requests ++ [q]
  else intercepted_requests.

(** *** [get_game_data_async] ([umpire_scorecard_scraper.py], lines 171-177)

    The first captured body that is a mapping is tagged and returned; with
    none, a new empty mapping is. *)

Section game_data.
Variable now_isoformat : nat -> string.
Variable game_id : string.

Fixpoint game_data_loop (responses : list hresponse) (st : pstate) : val * pstate :=
  match responses with
  | [] =>
      (VRef (length (st_heap st)),
       {| st_heap := st_heap st ++ [ODict []]; st_clock := st_clock st |})
  | r :: rest =>
      if is_dict_val (st_heap st) (hr_data r)
      then
        let h1 := set_item (st_heap st) (hr_data r) "game_id" (VStr game_id) in
        let h2 := set_item h1 (hr_data r) "scraped_at" (VStr (now_isoformat (st_clock st))) in
        (hr_data r, {| st_heap := h2; st_clock := S (st_clock st) |})
      else game_data_loop rest st
  end.
End game_data.

(** The records of a response, read off a heap. *)
Definition records_of (h : heap) (r : hresponse) : list val :=
  match hr_data r with
  | VRef l =>
      match h !! l with
      | Some (OList items) => List.filter (is_dict_val h) items
      | Some (ODict _) => [hr_data r]
      | None => []
      end
  | _ => []
  end.

(** Two heaps with the same sequences, and mappings at the same places. *)
Definition same_shape (h h' : heap) : Prop :=
  forall l : loc,
    (forall items, h !! l = Some (OList items) -> h' !! l = Some (OList items)) /\
    (forall es, h !! l = Some (ODict es) -> exists es', h' !! l = Some (ODict es')) /\
    (h !! l = None -> h' !! l = None).

(** *** Several umpires: [scrape_multiple_umpires] and [bulk_scrape]

    The page visit is an input: what it collects, or the exception it ends
    with.  Every exception of one umpire is caught and logged, and the loop
    goes on. *)

Section multiple_umpires.
(** [self.scrape_umpire_page(umpire_name)] of the simple scraper. *)
Variable scrape_umpire_page : string -> result (list dict).

(** The body of the try block of [scrape_multiple_umpires]
    ([simple_umpire_scraper.py], lines 268-273). *)
Definition simple_scrape_one (umpire_name : string) (start_date end_date : option string)
    : list log_record * result (list dict) :=
  match scrape_umpire_page umpire_name with
  | Raise e => ([], Raise e)
  | Ok umpire_data =>
      if bound_given start_date || bound_given end_date
      then simple_filter_by_date_range umpire_data start_date end_date
      else ([], Ok umpire_data)
  end.

Fixpoint scrape_multiple_umpires (umpire_names : list string)
    (start_date end_date : option string) (all_data : list dict)
    : list log_record * list dict :=
  match umpire_names with
  | [] => ([], all_data)
  | umpire_name :: rest =>
      match simple_scrape_one umpire_name start_date end_date with
      | (logs, Ok umpire_data) =>
          let '(logs', out) :=
            scrape_multiple_umpires rest start_date end_date (all_data ++ umpire_data) in
          (logs ++ logs', out)
      | (logs, Raise e) =>
          let '(logs', out) := scrape_multiple_umpires rest start_date end_date all_data in
          (logs ++ [(ERROR, "Error processing")] ++ logs', out)
      end
  end.
End multiple_umpires.

Section bulk_scrape.
Variable dateutil_parse : string -> result datetime.
(** The page visit and the processing loop of [get_umpire_data_async]
    ([umpire_scorecard_scraper.py], lines 133-154). *)
Variable collect : string -> result (list dict).

(** [get_umpire_data_async], from line 156 on. *)
Definition get_umpire_data (umpire_name : string) (start_date end_date : option string)
    : list log_record * result (list dict) :=
  match collect umpire_name with
  | Raise e => ([], Raise e)
  | Ok collected_data =>
      if bound_given start_date || bound_given end_date
      then scorecard_filter_by_date_range dateutil_parse collected_data start_date end_date
      else ([], Ok collected_data)
  end.

Fixpoint bulk_scrape (umpire_names : list string) (start_date end_date : option string)
    (all_data : list dict) : list log_record * list dict :=
  match umpire_names with
  | [] => ([], all_data)
  | umpire_name :: rest =>
      match get_umpire_data umpire_name start_date end_date with
      | (logs, Ok umpire_data) =>
          let '(logs', out) := bulk_scrape rest start_date end_date (all_data ++ umpire_data) in
          ((INFO, "Processing umpire") :: logs ++ logs', out)
      | (logs, Raise e) =>
          let '(logs', out) := bulk_scrape rest start_date end_date all_data in
          ((INFO, "Processing umpire") :: logs ++ [(ERROR, "Error processing umpire")] ++ logs',
           out)
      end
  end.
End bulk_scrape.

(** The pages that loaded, merged in the order of the names. *)
Definition merged_pages (page : string -> result (list dict)) (umpire_names : list string)
    : list dict :=
  flat_map (fun name => match page name with Ok data => data | Raise _ => [] end)
    umpire_names.

(** Two pages that load, and a failure for every other name. *)
Definition two_pages (name : string) : result (list dict) :=
  if String.eqb name "Pat Hoberg" then Ok [dated "2023-12-31"; dated "2024-06-15"]
  else if String.eqb name "Joe West" then Ok [dated "2024-07-04"]
  else Raise ValueError.

(** * Properties *)

(** ** Dictionaries *)

Section dictionary_lemmas.
Context {V : Type}.
Implicit Types (d acc items : list (string * V)) (k : string) (v : V).

Lemma dict_insert_all_app acc a b :
dict_insert_all acc (a ++ b) = dict_insert_all (dict_insert_all acc a) b.
Proof. apply fold_left_app. Qed.

Lemma dict_set_fresh d k v :
~ In k (keys d) -> dict_set d k v = d ++ [(k, v)].
Proof.
induction d as [|[k' v'] d IH]; simpl; intros Hk; [reflexivity|].
destruct (String.eqb_spec k' k) as [->|Hne].
- exfalso. apply Hk. now left.
- rewrite IH; [reflexivity|]. intros Hin. apply Hk. now right.
Qed.

Lemma keys_dict_set d k v :
keys (dict_set d k v) = if in_dec string_dec k (keys d) then keys d else keys d ++ [k].
Proof.
induction d as [|[k' v'] d IH]; simpl.
- reflexivity.
- destruct (String.eqb_spec k' k) as [->|Hne]; simpl.
  + destruct (string_dec k k); [|congruence].
    reflexivity.
  + rewrite IH. destruct (string_dec k' k); [congruence|].
    destruct (in_dec string_dec k (keys d)); reflexivity.
Qed.

Lemma In_keys_dict_set d k v k' :
In k' (keys (dict_set d k v)) <-> In k' (keys d) \/ k' = k.
Proof.
rewrite keys_dict_set. destruct (in_dec string_dec k (keys d)) as [Hin|Hout].
- split; [tauto|]. intros [H| ->]; assumption.
- rewrite in_app_iff. simpl. intuition congruence.
Qed.

Lemma NoDup_keys_dict_set d k v :
List.NoDup (keys d) -> List.NoDup (keys (dict_set d k v)).
Proof.
intros Hd. rewrite keys_dict_set.
destruct (in_dec string_dec k (keys d)) as [Hin|Hout]; [assumption|].
apply List.NoDup_app.
- assumption.
- repeat constructor. intros [].
- intros x Hx [<-|[]]. contradiction.
Qed.

Lemma NoDup_keys_dict_insert_all items acc :
List.NoDup (keys acc) -> List.NoDup (keys (dict_insert_all acc items)).
Proof.
revert acc. induction items as [|[k v] items IH]; simpl; intros acc Hacc; [assumption|].
apply IH. now apply NoDup_keys_dict_set.
Qed.

Lemma NoDup_keys_dict_of_items items : List.NoDup (keys (dict_of_items items)).
Proof. apply NoDup_keys_dict_insert_all. constructor. Qed.

Lemma dict_set_dict_set d k v v' :
dict_set (dict_set d k v) k v' = dict_set d k v'.
Proof.
induction d as [|[k0 v0] d IH]; simpl.
- now rewrite String.eqb_refl.
- destruct (String.eqb_spec k0 k) as [->|Hne]; simpl.
  + now rewrite String.eqb_refl.
  + destruct (String.eqb_spec k0 k); [congruence|]. now rewrite IH.
Qed.

Lemma dict_set_comm_present d k v k1 v1 :
k <> k1 -> In k (keys d) ->
dict_set (dict_set d k1 v1) k v = dict_set (dict_set d k v) k1 v1.
Proof.
intros Hne. induction d as [|[k0 v0] d IH]; simpl; intros Hin; [contradiction|].
destruct (String.eqb k0 k1) eqn:E1; destruct (String.eqb k0 k) eqn:E2;
  simpl; rewrite ?E1, ?E2; try reflexivity.
- apply String.eqb_eq in E1, E2. congruence.
- rewrite IH; [reflexivity|]. apply String.eqb_neq in E2.
  destruct Hin as [?|?]; [congruence|assumption].
Qed.

Lemma dict_set_insert_all_present items acc k v :
~ In k (map fst items) -> In k (keys acc) ->
dict_set (dict_insert_all acc items) k v = dict_insert_all (dict_set acc k v) items.
Proof.
revert acc. induction items as [|[k1 v1] items IH]; simpl; intros acc Hout Hin.
- reflexivity.
- rewrite IH.
  + rewrite dict_set_comm_present; [reflexivity| |assumption].
    intros ->. apply Hout. now left.
  + intros H. apply Hout. now right.
  + apply In_keys_dict_set. now left.
Qed.

Lemma dict_insert_all_dict_set d acc k v :
List.NoDup (keys d) ->
dict_insert_all acc (dict_set d k v) = dict_set (dict_insert_all acc d) k v.
Proof.
revert acc. induction d as [|[k0 v0] d IH]; simpl; intros acc Hnd.
- reflexivity.
- inversion Hnd as [|? ? Hk0 Hd]; subst.
  destruct (String.eqb_spec k0 k) as [Heq|Hne]; simpl.
  + subst k0. rewrite dict_set_insert_all_present.
    * now rewrite dict_set_dict_set.
    * assumption.
    * apply In_keys_dict_set. now right.
  + now apply IH.
Qed.

(** Inserting the pairs of an already built [dict(items)] is inserting
  [items]: only the last write at a key survives, at the place of the
  first. *)
Lemma dict_insert_all_dict_of_items items acc :
dict_insert_all acc (dict_of_items items) = dict_insert_all acc items.
Proof.
induction items as [|[k v] items IH] using rev_ind.
- reflexivity.
- unfold dict_of_items in *.
  rewrite !dict_insert_all_app. simpl.
  rewrite dict_insert_all_dict_set by apply NoDup_keys_dict_insert_all, List.NoDup_nil.
  now rewrite IH.
Qed.

Lemma dict_of_items_id d : List.NoDup (keys d) -> dict_of_items d = d.
Proof.
intros Hd. change (dict_insert_all [] d = [] ++ d).
assert (Hgen : forall acc, List.NoDup (keys acc ++ keys d) ->
                           dict_insert_all acc d = acc ++ d).
{ clear Hd. induction d as [|[k v] d IH]; simpl; intros acc Hnd.
  - now rewrite app_nil_r.
  - rewrite IH.
    + rewrite dict_set_fresh.
      * now rewrite <- app_assoc.
      * intros Hin. apply NoDup_remove_2 in Hnd. apply Hnd.
        apply in_or_app. now left.
    + rewrite dict_set_fresh.
      * unfold keys. rewrite map_app. simpl. rewrite <- app_assoc. exact Hnd.
      * intros Hin. apply NoDup_remove_2 in Hnd. apply Hnd.
        apply in_or_app. now left. }
apply Hgen. exact Hd.
Qed.

End dictionary_lemmas.

(** ** Induction over a value, its children and its grandchildren

    [flatten_dict] calls itself on the mapping values of a mapping and on the
    elements of its sequence values. *)

Lemma json_deep_ind (P : json -> Prop) :
  (forall v, on_children P v -> on_children (on_children P) v -> P v) ->
  forall v, P v.
Proof.
  intros Hstep v.
  enough (H : P v /\ on_children P v) by apply H.
  induction v as [| | | | |l IH|kvs IH] using json_nested_ind;
    try (split; [apply Hstep|]; exact I).
  - assert (Hc : Forall P l) by (eapply Forall_impl; [exact IH|]; simpl; tauto).
    split; [|exact Hc]. apply Hstep; [exact Hc|].
    simpl. eapply Forall_impl; [exact IH|]. simpl; tauto.
  - assert (Hc : Forall (fun kv => P (snd kv)) kvs)
      by (eapply Forall_impl; [exact IH|]; simpl; tauto).
    split; [|exact Hc]. apply Hstep; [exact Hc|].
    simpl. eapply Forall_impl; [exact IH|]. simpl; tauto.
Qed.

(** ** The flattener *)

Lemma scalar_row_dict_set d k v :
  scalar_row d -> is_scalar v = true -> scalar_row (dict_set d k v).
Proof.
  unfold scalar_row. induction d as [|[k' v'] d IH]; simpl; intros Hd Hv.
  - repeat constructor. exact Hv.
  - inversion Hd; subst. destruct (String.eqb k' k); constructor; auto.
Qed.

Lemma scalar_row_dict_of_items items : scalar_row items -> scalar_row (dict_of_items items).
Proof.
  unfold dict_of_items, dict_insert_all.
  assert (Hgen : forall acc, scalar_row acc -> scalar_row items ->
            scalar_row (fold_left (fun d kv => dict_set d (fst kv) (snd kv)) items acc)).
  { induction items as [|[k v] items IH]; simpl; intros acc Hacc Hit; [assumption|].
    inversion Hit; subst. apply IH; [|assumption]. now apply scalar_row_dict_set. }
  apply Hgen. constructor.
Qed.

Section flatten_invariants.
Variable rec : json -> string -> result dict.

Lemma flatten_elements_scalar new_key l :
  Forall (rec_scalar rec) l ->
  forall i items items',
    scalar_row items -> flatten_elements rec new_key l i items = Ok items' ->
    scalar_row items'.
Proof.
  induction 1 as [|x l Hx Hl IH]; simpl; intros i items items' Hit Hrun.
  - congruence.
  - destruct (rec x _) as [sub|e] eqn:Hsub; simpl in Hrun; [|discriminate].
    eapply IH; [|exact Hrun]. apply Forall_app. split; [assumption|].
    eapply Hx, Hsub.
Qed.

Lemma flatten_entry_scalar new_key v items items' :
  (rec_scalar rec) v -> on_children (rec_scalar rec) v ->
  scalar_row items -> flatten_entry rec new_key v items = Ok items' ->
  scalar_row items'.
Proof.
  intros Hv Hc Hit Hrun. unfold scalar_row in *.
  destruct v as [| | | | |l|kvs]; simpl in Hrun;
    try (injection Hrun as <-; apply Forall_app; split;
         [assumption|repeat constructor]).
  - destruct l as [|[] l]; try (injection Hrun as <-; apply Forall_app; split;
         [assumption|repeat constructor]).
    eapply flatten_elements_scalar; [exact Hc|exact Hit|exact Hrun].
  - destruct (rec _ _) as [sub|e] eqn:Hsub; simpl in Hrun; [|discriminate].
    injection Hrun as <-. apply Forall_app. split; [assumption|].
    eapply Hv, Hsub.
Qed.

Lemma flatten_loop_scalar parent_key sep kvs :
  Forall (fun kv => (rec_scalar rec) (snd kv)) kvs ->
  Forall (fun kv => on_children (rec_scalar rec) (snd kv)) kvs ->
  forall items items',
    scalar_row items -> flatten_loop rec parent_key sep kvs items = Ok items' ->
    scalar_row items'.
Proof.
  induction kvs as [|[k v] kvs IH]; simpl; intros Hv Hc items items' Hit Hrun.
  - congruence.
  - inversion Hv; inversion Hc; subst.
    destruct (flatten_entry _ _ _ _) as [mid|e] eqn:Hmid; simpl in Hrun; [|discriminate].
    eapply IH; [assumption|assumption| |exact Hrun].
    eapply flatten_entry_scalar; eauto.
Qed.

Lemma flatten_elements_error new_key l :
  Forall (rec_attribute_error rec) l ->
  forall i items e,
    flatten_elements rec new_key l i items = Raise e -> e = AttributeError.
Proof.
  induction 1 as [|x l Hx Hl IH]; simpl; intros i items e Hrun.
  - discriminate.
  - destruct (rec x _) as [sub|e'] eqn:Hsub; simpl in Hrun.
    + eapply IH, Hrun.
    + injection Hrun as <-. eapply Hx, Hsub.
Qed.

Lemma flatten_entry_error new_key v items e :
  (rec_attribute_error rec) v -> on_children (rec_attribute_error rec) v ->
  flatten_entry rec new_key v items = Raise e -> e = AttributeError.
Proof.
  intros Hv Hc Hrun.
  destruct v as [| | | | |l|kvs]; simpl in Hrun; try discriminate.
  - destruct l as [|[] l]; try discriminate.
    eapply flatten_elements_error; [exact Hc|exact Hrun].
  - destruct (rec _ _) as [sub|e'] eqn:Hsub; simpl in Hrun; [discriminate|].
    injection Hrun as <-. eapply Hv, Hsub.
Qed.

Lemma flatten_loop_error parent_key sep kvs :
  Forall (fun kv => (rec_attribute_error rec) (snd kv)) kvs ->
  Forall (fun kv => on_children (rec_attribute_error rec) (snd kv)) kvs ->
  forall items e,
    flatten_loop rec parent_key sep kvs items = Raise e -> e = AttributeError.
Proof.
  induction kvs as [|[k v] kvs IH]; simpl; intros Hv Hc items e Hrun.
  - discriminate.
  - inversion Hv; inversion Hc; subst.
    destruct (flatten_entry _ _ _ _) as [mid|e'] eqn:Hmid; simpl in Hrun.
    + eapply IH; eauto.
    + injection Hrun as <-. eapply flatten_entry_error; eauto.
Qed.
End flatten_invariants.

Lemma flatten_dict_scalar sep d :
  forall parent_key r, flatten_dict d parent_key sep = Ok r -> scalar_row r.
Proof.
  induction d as [v Hc Hgc] using json_deep_ind. intros parent_key r Hrun.
  destruct v as [| | | | | |kvs]; simpl in Hrun; try discriminate.
  destruct (flatten_loop _ _ _ _ _) as [items|e] eqn:Hloop; simpl in Hrun; [|discriminate].
  injection Hrun as <-. apply scalar_row_dict_of_items.
  eapply (flatten_loop_scalar (fun v key => flatten_dict v key sep));
    [exact Hc|exact Hgc|constructor|exact Hloop].
Qed.

Lemma flatten_dict_error sep d :
  forall parent_key e, flatten_dict d parent_key sep = Raise e -> e = AttributeError.
Proof.
  induction d as [v Hc Hgc] using json_deep_ind. intros parent_key e Hrun.
  destruct v as [| | | | | |kvs]; simpl in Hrun; try congruence.
  destruct (flatten_loop _ _ _ _ _) as [items|e'] eqn:Hloop; simpl in Hrun; [discriminate|].
  injection Hrun as <-.
  eapply (flatten_loop_error (fun v key => flatten_dict v key sep));
    [exact Hc|exact Hgc|exact Hloop].
Qed.

Lemma new_key_of_join_path parent_key sep k :
  new_key_of parent_key sep k = join_path parent_key sep k.
Proof. destruct parent_key; reflexivity. Qed.

Section collected_pairs_refinement.
Variable sep : string.
Variable rec : json -> string -> result dict.

Lemma extends_by_sub items sub :
  extends_by (items ++ dict_of_items sub) items sub.
Proof.
  intros acc. rewrite !dict_insert_all_app. apply dict_insert_all_dict_of_items.
Qed.

Lemma extends_by_trans items1 items2 items3 a b :
  extends_by items2 items1 a -> extends_by items3 items2 b ->
  extends_by items3 items1 (a ++ b).
Proof.
  intros H1 H2 acc. rewrite H2, app_assoc, !dict_insert_all_app, H1.
  now rewrite !dict_insert_all_app.
Qed.

Lemma flatten_elements_rule new_key l :
  Forall (rec_rule sep rec) l ->
  forallb is_dict l = true -> forallb homogeneous l = true ->
  forall i items, exists items',
    flatten_elements rec new_key l i items = Ok items' /\
    extends_by items' items (collected_elements (collected_pairs sep) new_key l i).
Proof.
  induction 1 as [|x l Hx Hl IH]; simpl; intros Hd Hh i items.
  - exists items. split; [reflexivity|]. intros acc. now rewrite app_nil_r.
  - apply andb_prop in Hd as [Hdx Hd]. apply andb_prop in Hh as [Hhx Hh].
    rewrite (Hx _ Hdx Hhx). simpl.
    destruct (IH Hd Hh (S i) (items ++ dict_of_items
                (collected_pairs sep (new_key +:+ "_" +:+ pretty i) x)))
      as (items' & Hrun & Hext).
    exists items'. split; [exact Hrun|].
    eapply extends_by_trans; [apply extends_by_sub|exact Hext].
Qed.

Lemma flatten_entry_rule new_key v items :
  (rec_rule sep rec) v -> on_children (rec_rule sep rec) v -> homogeneous v = true ->
  exists items',
    flatten_entry rec new_key v items = Ok items' /\
    extends_by items' items (collected_pairs sep new_key v).
Proof.
  intros Hv Hc Hh.
  destruct v as [| | | | |l|kvs];
    try (eexists; split; [reflexivity|]; intros acc; reflexivity).
  - destruct l as [|x l]; [eexists; split; [reflexivity|]; intros acc; reflexivity|].
    destruct (is_dict x) eqn:Hx.
    + assert (Hall : forallb is_dict (x :: l) = true /\
                     forallb homogeneous (x :: l) = true).
      { cbn [homogeneous] in Hh. apply orb_prop in Hh as [Hh|Hh].
        - now apply andb_prop in Hh.
        - simpl in Hh. rewrite Hx in Hh. discriminate. }
      destruct Hall as [Hd Hhs].
      destruct (flatten_elements_rule new_key (x :: l) Hc Hd Hhs 0%nat items)
        as (items' & Hrun & Hext).
      exists items'. split.
      * destruct x; try discriminate. exact Hrun.
      * cbn [collected_pairs]. unfold sequence_of_mappings. rewrite Hd. exact Hext.
    + eexists. split.
      * destruct x; try discriminate; reflexivity.
      * cbn [collected_pairs]. unfold sequence_of_mappings. cbn [forallb].
        rewrite Hx. intros acc. reflexivity.
  - unfold flatten_entry. rewrite (Hv new_key eq_refl Hh). simpl.
    eexists. split; [reflexivity|]. apply extends_by_sub.
Qed.

Lemma flatten_loop_rule parent_key kvs :
  Forall (fun kv => (rec_rule sep rec) (snd kv)) kvs ->
  Forall (fun kv => on_children (rec_rule sep rec) (snd kv)) kvs ->
  forallb (fun kv => homogeneous (snd kv)) kvs = true ->
  forall items, exists items',
    flatten_loop rec parent_key sep kvs items = Ok items' /\
    extends_by items' items
      (flat_map (fun kv => collected_pairs sep (join_path parent_key sep (fst kv)) (snd kv))
         kvs).
Proof.
  induction kvs as [|[k v] kvs IH]; simpl; intros Hv Hc Hh items.
  - exists items. split; [reflexivity|]. intros acc. now rewrite app_nil_r.
  - inversion Hv; inversion Hc; subst. apply andb_prop in Hh as [Hhv Hh].
    destruct (flatten_entry_rule (new_key_of parent_key sep k) v items)
      as (mid & Hmid & Hext1); [assumption..|].
    rewrite Hmid. simpl.
    destruct (IH ltac:(assumption) ltac:(assumption) Hh mid) as (items' & Hrun & Hext2).
    exists items'. split; [exact Hrun|].
    rewrite <- new_key_of_join_path.
    eapply extends_by_trans; eassumption.
Qed.
End collected_pairs_refinement.

Lemma flatten_dict_rule sep v :
  forall parent_key, is_dict v = true -> homogeneous v = true ->
    flatten_dict v parent_key sep = Ok (dict_of_items (collected_pairs sep parent_key v)).
Proof.
  induction v as [v Hc Hgc] using json_deep_ind. intros parent_key Hd Hh.
  destruct v as [| | | | | |kvs]; try discriminate.
  destruct (flatten_loop_rule sep (fun v key => flatten_dict v key sep) parent_key kvs
              Hc Hgc Hh []) as (items & Hrun & Hext).
  cbn [flatten_dict]. rewrite Hrun. simpl. f_equal. apply (Hext []).
Qed.

Lemma collected_pairs_flat sep kvs :
  Forall (fun kv => is_scalar (snd kv) = true) kvs ->
  collected_pairs sep EmptyString (JDict kvs) = kvs.
Proof.
  cbn [collected_pairs]. induction 1 as [|[k v] kvs Hv Hkvs IH]; [reflexivity|].
  cbn [flat_map]. rewrite IH. simpl in Hv. destruct v; try discriminate; reflexivity.
Qed.

Lemma homogeneous_flat kvs :
  Forall (fun kv => is_scalar (snd kv) = true) kvs -> homogeneous (JDict kvs) = true.
Proof.
  cbn [homogeneous]. induction 1 as [|[k v] kvs Hv Hkvs IH]; [reflexivity|].
  cbn [forallb]. rewrite IH. simpl in Hv. destruct v; try discriminate; reflexivity.
Qed.

Lemma flatten_elements_raises sep new_key l :
  Exists (fun x => is_dict x = false) l ->
  forall i items,
    flatten_elements (fun v key => flatten_dict v key sep) new_key l i items
    = Raise AttributeError.
Proof.
  induction 1 as [x l Hx|x l Hl IH]; simpl; intros i items.
  - destruct x; try discriminate; reflexivity.
  - destruct (flatten_dict x _ sep) as [sub|e] eqn:Hsub; simpl.
    + apply IH.
    + f_equal. eapply flatten_dict_error, Hsub.
Qed.

Lemma flatten_entry_attribute_error sep new_key v items e :
  flatten_entry (fun v key => flatten_dict v key sep) new_key v items = Raise e ->
  e = AttributeError.
Proof.
  apply flatten_entry_error.
  - intros key e'. apply flatten_dict_error.
  - destruct v; simpl; try exact I; apply Forall_forall; intros x _ key e';
      apply flatten_dict_error.
Qed.

Lemma flatten_loop_raises sep parent_key kvs k d l :
  In (k, JList (JDict d :: l)) kvs ->
  Exists (fun x => is_dict x = false) l ->
  forall items,
    flatten_loop (fun v key => flatten_dict v key sep) parent_key sep kvs items
    = Raise AttributeError.
Proof.
  intros Hin Hbad. induction kvs as [|[k0 v0] kvs IH]; simpl; intros items.
  - destruct Hin.
  - destruct Hin as [Heq|Hin].
    + injection Heq as -> ->. cbn [flatten_entry].
      rewrite flatten_elements_raises; [reflexivity|].
      now apply Exists_cons_tl.
    + destruct (flatten_entry _ _ _ _) as [mid|e] eqn:Hmid; simpl.
      * now apply IH.
      * f_equal. eapply flatten_entry_attribute_error, Hmid.
Qed.

(** ** The claims about the flattener *)

(** At the default separator the rule and the code collect the same pairs. *)
Lemma rule_pairs_default_separator v :
  forall path, rule_pairs "_" path v = collected_pairs "_" path v.
Proof.
  induction v as [| | | | |l IH|kvs IH] using json_nested_ind; intros path;
    try reflexivity.
  - cbn [rule_pairs collected_pairs]. destruct (sequence_of_mappings l); [|reflexivity].
    generalize 0%nat. induction IH as [|x l Hx Hl IHl]; intros i; [reflexivity|].
    cbn [rule_elements collected_elements]. now rewrite Hx, IHl.
  - cbn [rule_pairs collected_pairs].
    induction IH as [|[k v] kvs Hv Hkvs IHkvs]; [reflexivity|].
    cbn [flat_map fst snd]. simpl in Hv. now rewrite Hv, IHkvs.
Qed.

(** With the default separator, [flatten_dict] returns the row of the rule
    on every record whose sequences hold only mappings or no mapping. *)
Lemma flatten_dict_follows_rule_at_default_separator record :
  is_dict record = true -> homogeneous record = true ->
  flatten_dict record EmptyString "_" = Ok (flatten_rule "_" record).
Proof.
  intros Hd Hh. unfold flatten_rule. rewrite rule_pairs_default_separator.
  now apply flatten_dict_rule.
Qed.

(** C4. The two records of the claim flatten as the rule says, to a_b = 1
    and to a_0_x = 1, a_1_x = 2.  With another separator the code departs
    from the rule: flattened with a dot, the record with one mapping in a
    sequence under calls gets the key calls_0.zone, the position joined with
    the underscore of line 252, where the rule, which joins the position
    with the separator, gives calls.0.zone. *)
Theorem flatten_dict_index_departs_from_rule :
  flatten_dict nested_mapping_record EmptyString "_" = Ok [("a_b", JInt 1)] /\
  flatten_rule "_" nested_mapping_record = [("a_b", JInt 1)] /\
  flatten_dict sequence_of_mappings_record EmptyString "_"
  = Ok [("a_0_x", JInt 1); ("a_1_x", JInt 2)] /\
  flatten_rule "_" sequence_of_mappings_record = [("a_0_x", JInt 1); ("a_1_x", JInt 2)] /\
  flatten_dict (JDict [("calls", JList [JDict [("zone", JInt 1)]])]) EmptyString "."
  = Ok [("calls_0.zone", JInt 1)] /\
  flatten_rule "." (JDict [("calls", JList [JDict [("zone", JInt 1)]])])
  = [("calls.0.zone", JInt 1)].
Proof. repeat split; reflexivity. Qed.

(** C8. Flattening a mapping whose values are all scalars or null returns
    the same mapping, key for key and value for value. *)
Theorem flatten_dict_flat_identity :
  forall kvs sep,
    wf_json (JDict kvs) ->
    Forall (fun kv => is_scalar (snd kv) = true) kvs ->
    flatten_dict (JDict kvs) EmptyString sep = Ok kvs.
Proof.
  intros kvs sep [Hnd _] Hflat.
  rewrite flatten_dict_rule; [|reflexivity|now apply homogeneous_flat].
  rewrite collected_pairs_flat by assumption.
  now rewrite dict_of_items_id.
Qed.

Lemma flatten_dict_flat_identity_witness :
  flatten_dict (JDict flat_row_example) EmptyString "_" = Ok flat_row_example.
Proof.
  apply (flatten_dict_flat_identity flat_row_example "_").
  - split; [|simpl; tauto].
    repeat (constructor; [simpl; intuition discriminate|]). constructor.
  - repeat constructor.
Defined.

(** C9. When flattening succeeds, no value of the resulting row is a mapping
    or a sequence. *)
Theorem flatten_dict_no_nested_containers :
  forall record parent_key sep row,
    flatten_dict record parent_key sep = Ok row ->
    Forall (fun kv => is_dict (snd kv) = false /\ is_list (snd kv) = false) row.
Proof.
  intros record parent_key sep row Hrun.
  apply flatten_dict_scalar in Hrun. eapply Forall_impl; [exact Hrun|].
  intros [k v]. unfold is_scalar. simpl.
  destruct (is_dict v), (is_list v); simpl; intuition discriminate.
Qed.

Lemma flatten_dict_no_nested_containers_witness :
  Forall (fun kv => is_dict (snd kv) = false /\ is_list (snd kv) = false)
    [("game_id", JInt 7); ("game_teams", JStr "['NYY', 'BOS']");
     ("calls_0_zone", JInt 1); ("calls_1_zone", JInt 2); ("notes", JStr "[]");
     ("date", JStr "2024-06-15")].
Proof.
  apply (flatten_dict_no_nested_containers mixed_values_record EmptyString "_").
  reflexivity.
Defined.

(** C10. A sequence value is handled by its first element alone: when the
    first element is a mapping and a later one is not, every element is
    recursed on as a mapping and flattening raises AttributeError. *)
Theorem flatten_dict_sequence_first_element :
  forall kvs k d l parent_key sep,
    In (k, JList (JDict d :: l)) kvs ->
    Exists (fun x => is_dict x = false) l ->
    flatten_dict (JDict kvs) parent_key sep = Raise AttributeError.
Proof.
  intros kvs k d l parent_key sep Hin Hbad. cbn [flatten_dict].
  now rewrite (flatten_loop_raises sep parent_key kvs k d l Hin Hbad).
Qed.

Lemma flatten_dict_sequence_first_element_witness :
  flatten_dict (JDict [("id", JInt 1);
                       ("calls", JList [JDict [("zone", JInt 1)]; JStr "n/a"])])
    EmptyString "_"
  = Raise AttributeError.
Proof.
  apply (flatten_dict_sequence_first_element _ "calls" [("zone", JInt 1)] [JStr "n/a"]).
  - right. left. reflexivity.
  - apply Exists_cons_hd. reflexivity.
Defined.



(** ** The response classifier *)

Lemma scorecard_captures_only_success_json r :
  captures scorecard_handle_response r = true ->
  resp_status r = 200 /\ contains "json" (content_type_lower r) = true.
Proof.
  unfold captures, scorecard_handle_response.
  destruct (existsb _ _); simpl; [|discriminate].
  destruct (Z.eqb_spec (resp_status r) 200) as [Hs|Hs]; simpl; [|discriminate].
  destruct (contains "json" (content_type_lower r)); [|discriminate].
  intros _. split; [exact Hs|reflexivity].
Qed.

Lemma simple_captures_only_json r :
  captures simple_handle_response r = true ->
  contains "json" (content_type_lower r) = true.
Proof.
  unfold captures, simple_handle_response.
  destruct (contains "json" (content_type_lower r)); [reflexivity|discriminate].
Qed.

(** A response whose content type is text/html is captured by neither
    handler, whatever its URL and status. *)
Lemma html_response_not_captured r :
  header_get (resp_headers r) "content-type" EmptyString = "text/html" ->
  captures simple_handle_response r = false /\
  captures scorecard_handle_response r = false.
Proof.
  intros Hct. unfold captures, simple_handle_response, scorecard_handle_response,
    content_type_lower. rewrite Hct.
  split; [reflexivity|]. destruct (_ && _); reflexivity.
Qed.

(** The scorecard handler captures no response whose status is not 200. *)
Lemma scorecard_rejects_other_status r :
  resp_status r <> 200 -> captures scorecard_handle_response r = false.
Proof.
  intros Hs. destruct (captures scorecard_handle_response r) eqn:Hc; [|reflexivity].
  apply scorecard_captures_only_success_json in Hc. tauto.
Qed.

(** C1. The simple scraper's handler looks at the content type only: a 404
    response with a JSON content type and a JSON body is captured, while the
    scorecard scraper's handler rejects it. *)
Theorem simple_handle_response_captures_404 :
  simple_handle_response not_found_api_response []
  = [{| cap_url := "https://umpscorecards.com/api/umpires/unknown";
        cap_data := JDict [("error", JStr "Not Found")] |}] /\
  scorecard_handle_response not_found_api_response [] = [].
Proof. split; reflexivity. Qed.

(** ** The date filter *)

Lemma strptime_naive s fmt d : strptime s fmt = Some d -> utcoffset d = None.
Proof.
  unfold strptime. destruct (match_tokens _ _) as [[gs [|c rest]]|]; try discriminate.
  destruct (_ && _); [|discriminate]. intros [= <-]. reflexivity.
Qed.

Lemma first_format_naive date_str formats d :
  first_format date_str formats = Some d -> utcoffset d = None.
Proof.
  induction formats as [|fmt formats IH]; cbn [first_format]; [discriminate|].
  destruct (strptime _ fmt) as [d'|] eqn:Hp; [|exact IH].
  intros [= <-]. eapply strptime_naive, Hp.
Qed.

Lemma simple_item_date_in_naive date_fields item d :
  simple_item_date_in date_fields item = Some d -> utcoffset d = None.
Proof.
  induction date_fields as [|field rest IH]; cbn [simple_item_date_in]; [discriminate|].
  destruct (dict_get item field) as [v|]; [|exact IH].
  destruct (truthy v); [|exact IH].
  destruct (first_format (py_str v) simple_formats) as [d'|] eqn:Hp; [|exact IH].
  intros [= <-]. eapply first_format_naive, Hp.
Qed.

Lemma simple_bound_naive bound default d :
  utcoffset default = None -> simple_bound bound default = Some d -> utcoffset d = None.
Proof.
  intros Hdef. unfold simple_bound. destruct bound as [s|].
  - destruct (truthy_str s).
    + apply strptime_naive.
    + now intros [= <-].
  - now intros [= <-].
Qed.

Lemma datetime_between_naive a b c :
  utcoffset a = None -> utcoffset b = None -> utcoffset c = None ->
  datetime_between a b c = Ok (naive_between a b c).
Proof.
  intros Ha Hb Hc. unfold datetime_between, datetime_le, naive_between.
  rewrite Ha, Hb, Hc. cbn [rbind].
  destruct (lex_le (fields a) (fields b)); reflexivity.
Qed.

Lemma datetime_between_naive_aware a b c offset :
  utcoffset a = None -> utcoffset b = Some offset ->
  datetime_between a b c = Raise TypeError.
Proof.
  intros Ha Hb. unfold datetime_between, datetime_le. now rewrite Ha, Hb.
Qed.

Lemma datetime_between_error a b c e :
  datetime_between a b c = Raise e -> e = TypeError.
Proof.
  unfold datetime_between, datetime_le.
  destruct (utcoffset a), (utcoffset b), (utcoffset c); simpl;
    repeat match goal with |- context [if ?x then _ else _] => destruct x; simpl end;
    congruence.
Qed.

Section filter_loop_properties.
Variable item_date : dict -> option datetime.
Variables start_dt end_dt : datetime.

Lemma filter_loop_ok data :
  Forall (fun item => is_ok (in_range item_date start_dt end_dt item) = true) data ->
  forall filtered_data,
    filter_loop item_date start_dt end_dt data filtered_data
    = Ok (filtered_data ++ List.filter (kept item_date start_dt end_dt) data).
Proof.
  induction 1 as [|item data Hitem Hdata IH]; simpl; intros filtered_data.
  - now rewrite app_nil_r.
  - unfold kept at 1. destruct (in_range _ _ _ item) as [[|]|e]; try discriminate; simpl.
    + rewrite IH, <- app_assoc. reflexivity.
    + apply IH.
Qed.

Lemma in_range_error item e :
  in_range item_date start_dt end_dt item = Raise e -> e = TypeError.
Proof.
  unfold in_range. destruct (item_date item); [apply datetime_between_error|discriminate].
Qed.

Lemma filter_loop_raises data item :
  In item data ->
  in_range item_date start_dt end_dt item = Raise TypeError ->
  forall filtered_data,
    filter_loop item_date start_dt end_dt data filtered_data = Raise TypeError.
Proof.
  intros Hin Hbad. induction data as [|item' data IH]; simpl; intros filtered_data.
  - destruct Hin.
  - destruct Hin as [->|Hin].
    + now rewrite Hbad.
    + destruct (in_range _ _ _ item') as [keep|e] eqn:Hr; simpl.
      * now apply IH.
      * f_equal. eapply in_range_error, Hr.
Qed.
End filter_loop_properties.

(** The simple scraper's filter never raises: with bounds that parse, it
    keeps, in order, the items whose first parsing date field lies between
    the bounds, both ends included. *)
Lemma simple_filter_by_date_range_keeps data start_date end_date start_dt end_dt :
  bound_given start_date || bound_given end_date = true ->
  simple_bound start_date datetime_min = Some start_dt ->
  simple_bound end_date datetime_max = Some end_dt ->
  simple_filter_by_date_range data start_date end_date
  = ([(INFO, "Filtered to")],
     Ok (List.filter
           (fun item => match simple_item_date item with
                        | Some d => naive_between start_dt d end_dt
                        | None => false
                        end) data)).
Proof.
  intros Hgiven Hs He. unfold simple_filter_by_date_range.
  rewrite Hgiven, Hs, He. simpl.
  assert (Hns : utcoffset start_dt = None) by (eapply simple_bound_naive; [|exact Hs]; reflexivity).
  assert (Hne : utcoffset end_dt = None) by (eapply simple_bound_naive; [|exact He]; reflexivity).
  assert (Hrange : forall item,
             in_range simple_item_date start_dt end_dt item
             = Ok match simple_item_date item with
                  | Some d => naive_between start_dt d end_dt
                  | None => false
                  end).
  { intros item. unfold in_range. destruct (simple_item_date item) as [d|] eqn:Hd; [|reflexivity].
    apply datetime_between_naive; try assumption.
    eapply simple_item_date_in_naive, Hd. }
  rewrite filter_loop_ok.
  - simpl. do 2 f_equal. apply filter_ext. intros item. unfold kept. now rewrite Hrange.
  - apply Forall_forall. intros item _. now rewrite Hrange.
Qed.

(** The simple scraper's filter on a bound that does not parse: the error is
    logged and the input returned. *)
Lemma simple_filter_by_date_range_bad_bound data start_date end_date :
  bound_given start_date || bound_given end_date = true ->
  simple_bound start_date datetime_min = None \/ simple_bound end_date datetime_max = None ->
  simple_filter_by_date_range data start_date end_date
  = ([(ERROR, "Invalid date format")], Ok data).
Proof.
  intros Hgiven Hbad. unfold simple_filter_by_date_range. rewrite Hgiven. simpl.
  destruct (simple_bound start_date datetime_min) as [start_dt|]; [|reflexivity].
  destruct Hbad as [Hbad|Hbad]; [discriminate|]. now rewrite Hbad.
Qed.

(** The scorecard scraper's filter, when no comparison raises. *)
Lemma scorecard_filter_by_date_range_keeps parse data start_date end_date start_dt end_dt :
  bound_given start_date || bound_given end_date = true ->
  scorecard_bound parse start_date datetime_min = Ok start_dt ->
  scorecard_bound parse end_date datetime_max = Ok end_dt ->
  Forall (fun item =>
            is_ok (in_range (scorecard_item_date parse) start_dt end_dt item) = true) data ->
  scorecard_filter_by_date_range parse data start_date end_date
  = ([(INFO, "Filtered")],
     Ok (List.filter (kept (scorecard_item_date parse) start_dt end_dt) data)).
Proof.
  intros Hgiven Hs He Hok. unfold scorecard_filter_by_date_range.
  rewrite Hgiven, Hs, He. simpl. now rewrite filter_loop_ok.
Qed.

(** C3. In the scorecard scraper a bound that does not parse is not caught:
    the parser's exception leaves [filter_by_date_range], nothing is logged
    and no sequence is returned. *)
Theorem scorecard_filter_raises_on_bad_bound :
  forall parse data start_date end_date e,
    bound_given start_date || bound_given end_date = true ->
    scorecard_bound parse start_date datetime_min = Raise e \/
    (is_ok (scorecard_bound parse start_date datetime_min) = true /\
     scorecard_bound parse end_date datetime_max = Raise e) ->
    scorecard_filter_by_date_range parse data start_date end_date = ([], Raise e).
Proof.
  intros parse data start_date end_date e Hgiven Hbad.
  unfold scorecard_filter_by_date_range. rewrite Hgiven. cbn [negb].
  destruct Hbad as [Hstart|[Hstart Hend]].
  - now rewrite Hstart.
  - destruct (scorecard_bound parse start_date datetime_min); [|discriminate].
    now rewrite Hend.
Qed.

Lemma scorecard_filter_raises_on_bad_bound_witness :
  scorecard_filter_by_date_range dateutil_sample [dated "2024-06-15"]
    (Some "garbage") (Some "2024-12-31")
  = ([], Raise ValueError) /\
  scorecard_filter_by_date_range dateutil_sample [dated "2024-06-15"]
    (Some "2024-01-01") (Some "garbage")
  = ([], Raise ValueError).
Proof.
  split.
  - apply (scorecard_filter_raises_on_bad_bound dateutil_sample); [reflexivity|].
    left. reflexivity.
  - apply (scorecard_filter_raises_on_bad_bound dateutil_sample); [reflexivity|].
    right. split; reflexivity.
Defined.

(** C6. In the scorecard scraper the comparison with the bounds is outside
    the try block: an item whose date parses to an aware datetime, against a
    naive start bound, makes [filter_by_date_range] raise TypeError, and no
    item is kept, in range or not. *)
Theorem scorecard_filter_raises_on_aware_date :
  forall parse data start_date end_date start_dt end_dt item d offset,
    bound_given start_date || bound_given end_date = true ->
    scorecard_bound parse start_date datetime_min = Ok start_dt ->
    scorecard_bound parse end_date datetime_max = Ok end_dt ->
    utcoffset start_dt = None ->
    In item data ->
    scorecard_item_date parse item = Some d ->
    utcoffset d = Some offset ->
    scorecard_filter_by_date_range parse data start_date end_date = ([], Raise TypeError).
Proof.
  intros parse data start_date end_date start_dt end_dt item d offset
    Hgiven Hs He Hnaive Hin Hd Haware.
  unfold scorecard_filter_by_date_range. rewrite Hgiven, Hs, He. simpl.
  rewrite (filter_loop_raises _ _ _ data item Hin); [reflexivity|].
  unfold in_range. rewrite Hd. eapply datetime_between_naive_aware; eassumption.
Qed.

Lemma scorecard_filter_raises_on_aware_date_witness :
  scorecard_filter_by_date_range dateutil_sample
    [dated "2024-06-15"; dated "2024-06-15T12:00:00Z"]
    (Some "2024-01-01") (Some "2024-12-31")
  = ([], Raise TypeError).
Proof.
  apply (scorecard_filter_raises_on_aware_date dateutil_sample _ _ _
           (naive_date 2024 1 1) (naive_date 2024 12 31)
           (dated "2024-06-15T12:00:00Z") (aware_datetime 2024 6 15 12 0 0 0) 0);
    try reflexivity.
  right. left. reflexivity.
Defined.

(** C7. With neither a start bound nor an end bound, both filters return
    the input sequence itself: the same records in the same order. *)
Theorem filter_by_date_range_no_bounds :
  forall parse data start_date end_date,
    bound_given start_date = false -> bound_given end_date = false ->
    simple_filter_by_date_range data start_date end_date = ([], Ok data) /\
    scorecard_filter_by_date_range parse data start_date end_date = ([], Ok data).
Proof.
  intros parse data start_date end_date Hs He.
  unfold simple_filter_by_date_range, scorecard_filter_by_date_range.
  now rewrite Hs, He.
Qed.

Lemma filter_by_date_range_no_bounds_witness :
  simple_filter_by_date_range [dated "2023-12-31"; dated "n/a"] None None
  = ([], Ok [dated "2023-12-31"; dated "n/a"]) /\
  scorecard_filter_by_date_range dateutil_sample [dated "2023-12-31"; dated "n/a"] None None
  = ([], Ok [dated "2023-12-31"; dated "n/a"]).
Proof.
  apply (filter_by_date_range_no_bounds dateutil_sample); reflexivity.
Defined.

(** ** The heap *)

Lemma dict_get_dict_set {V} (d : list (string * V)) k v k' :
  dict_get (dict_set d k v) k' = if String.eqb k k' then Some v else dict_get d k'.
Proof.
  induction d as [|[k0 v0] d IH]; simpl.
  - destruct (String.eqb k k'); reflexivity.
  - destruct (String.eqb_spec k0 k) as [->|Hne]; simpl.
    + destruct (String.eqb k k'); reflexivity.
    + rewrite IH. destruct (String.eqb_spec k k') as [->|Hne'].
      * destruct (String.eqb_spec k0 k'); [congruence|reflexivity].
      * reflexivity.
Qed.

Lemma set_item_lookup_ne h target k v l :
  target <> VRef l -> set_item h target k v !! l = h !! l.
Proof.
  intros Hne. unfold set_item. destruct target as [| | | | |l0]; try reflexivity.
  destruct (h !! l0) as [[es|vs]|] eqn:Hl0; try reflexivity.
  apply list_lookup_insert_ne. congruence.
Qed.

Lemma set_item_lookup_dict h l es k v :
  h !! l = Some (ODict es) ->
  set_item h (VRef l) k v !! l = Some (ODict (dict_set es k v)).
Proof.
  intros Hl. unfold set_item. rewrite Hl. apply list_lookup_insert_eq.
  eapply lookup_lt_Some, Hl.
Qed.

Lemma set_item_not_dict h target k v :
  is_dict_val h target = false -> set_item h target k v = h.
Proof.
  unfold is_dict_val, set_item. destruct target as [| | | | |l]; try reflexivity.
  destruct (h !! l) as [[es|vs]|]; try reflexivity. discriminate.
Qed.

Lemma set_item_is_dict_val h target k v x :
  is_dict_val (set_item h target k v) x = is_dict_val h x.
Proof.
  destruct (is_dict_val h target) eqn:Ht; [|now rewrite set_item_not_dict].
  destruct x as [| | | | |l]; try reflexivity.
  destruct (decide (target = VRef l)) as [->|Hne].
  - unfold is_dict_val in *. destruct (h !! l) as [[es|vs]|] eqn:Hl; try discriminate.
    now rewrite (set_item_lookup_dict h l es).
  - unfold is_dict_val. now rewrite set_item_lookup_ne.
Qed.

Lemma set_item_is_list_val h target k v x :
  is_list_val (set_item h target k v) x = is_list_val h x.
Proof.
  destruct (is_dict_val h target) eqn:Ht; [|now rewrite set_item_not_dict].
  destruct x as [| | | | |l]; try reflexivity. unfold is_list_val.
  destruct (decide (target = VRef l)) as [->|Hne].
  - unfold is_dict_val in Ht. destruct (h !! l) as [[es|vs]|] eqn:Hl; try discriminate.
    now rewrite (set_item_lookup_dict h l es).
  - now rewrite set_item_lookup_ne.
Qed.

Lemma get_item_set_item h target k v x k' :
  get_item (set_item h target k v) x k'
  = if bool_decide (x = target) && is_dict_val h target && String.eqb k k'
    then Some v else get_item h x k'.
Proof.
  destruct (is_dict_val h target) eqn:Ht;
    [|rewrite set_item_not_dict by assumption; now rewrite andb_false_r].
  rewrite andb_true_r. destruct x as [| | | | |l]; try (destruct (_ && _) eqn:Hc;
    [apply andb_prop in Hc as [Hc _]; apply bool_decide_eq_true in Hc; rewrite <- Hc in Ht;
     discriminate | reflexivity]).
  unfold get_item at 1 2. case_bool_decide as Hx.
  - rewrite <- Hx in *. unfold is_dict_val in Ht.
    destruct (h !! l) as [[es|vs]|] eqn:Hl; try discriminate.
    rewrite (set_item_lookup_dict h l es) by assumption.
    simpl. apply dict_get_dict_set.
  - simpl. rewrite set_item_lookup_ne by congruence. reflexivity.
Qed.

Lemma get_item_set_item_other_key h target k v x k' :
  k <> k' -> get_item (set_item h target k v) x k' = get_item h x k'.
Proof.
  intros Hne. rewrite get_item_set_item.
  destruct (String.eqb_spec k k'); [congruence|]. now rewrite andb_false_r.
Qed.

(** ** The record extractor *)

Section tagging.
Variable now_isoformat : nat -> string.
Variable umpire_name : string.

Lemma scorecard_tag_spec :
  tag_spec (scorecard_tag now_isoformat umpire_name) scorecard_keys
    (scorecard_provenance now_isoformat umpire_name).
Proof.
  split.
  - intros url st item l Hne. simpl. now rewrite !set_item_lookup_ne.
  - intros url st item x. simpl. now rewrite !set_item_is_dict_val.
  - reflexivity.
  - intros url st item x k Hk. simpl.
    rewrite !get_item_set_item_other_key; [reflexivity|..];
      intros <-; apply Hk; simpl; tauto.
  - intros url clock0 st item Hd Hc. unfold scorecard_provenance. simpl.
    repeat split.
    + rewrite !get_item_set_item, !set_item_is_dict_val, Hd, bool_decide_eq_true_2; done.
    + rewrite !get_item_set_item, !set_item_is_dict_val, Hd, bool_decide_eq_true_2; done.
    + exists (st_clock st). split; [lia|].
      rewrite !get_item_set_item, !set_item_is_dict_val, Hd, bool_decide_eq_true_2; done.
  - intros url clock0 st item x Hd (Hname & Hurl & n & Hn & Htime).
    unfold scorecard_provenance. simpl.
    rewrite !get_item_set_item, !set_item_is_dict_val, Hd. simpl.
    case_bool_decide; simpl.
    + repeat split; try reflexivity. exists (st_clock st). split; [lia|reflexivity].
    + repeat split; try assumption. exists n. split; [lia|assumption].
Qed.

Lemma simple_tag_spec :
  tag_spec (simple_tag now_isoformat umpire_name) simple_keys
    (simple_provenance now_isoformat umpire_name).
Proof.
  split.
  - intros url st item l Hne. simpl. now rewrite !set_item_lookup_ne.
  - intros url st item x. simpl. now rewrite !set_item_is_dict_val.
  - reflexivity.
  - intros url st item x k Hk. simpl.
    rewrite !get_item_set_item_other_key; [reflexivity|..];
      intros <-; apply Hk; simpl; tauto.
  - intros url clock0 st item Hd Hc. unfold simple_provenance. simpl.
    split.
    + rewrite !get_item_set_item, !set_item_is_dict_val, Hd, bool_decide_eq_true_2; done.
    + exists (st_clock st). split; [lia|].
      rewrite !get_item_set_item, !set_item_is_dict_val, Hd, bool_decide_eq_true_2; done.
  - intros url clock0 st item x Hd (Hname & n & Hn & Htime).
    unfold simple_provenance. simpl.
    rewrite !get_item_set_item, !set_item_is_dict_val, Hd. simpl.
    case_bool_decide; simpl.
    + split; try reflexivity. exists (st_clock st). split; [lia|reflexivity].
    + split; try assumption. exists n. split; [lia|assumption].
Qed.
End tagging.

Section extraction_loop.
Variable tag : string -> pstate -> val -> pstate.
Variable prov_keys : list string.
Variable provenance : string -> nat -> pstate -> val -> Prop.
Hypothesis Htag : tag_spec tag prov_keys provenance.

Lemma process_items_records url items :
  forall st collected_data,
    fst (process_items tag url items st collected_data)
    = collected_data ++ List.filter (is_dict_val (st_heap st)) items.
Proof.
  induction items as [|item items IH]; simpl; intros st collected_data.
  - now rewrite app_nil_r.
  - destruct (is_dict_val (st_heap st) item) eqn:Hd.
    + rewrite IH, <- app_assoc. simpl. do 2 f_equal.
      apply filter_ext. intros x. apply (tag_is_dict _ _ _ Htag).
    + apply IH.
Qed.

Lemma process_items_is_dict url items x :
  forall st collected_data,
    is_dict_val (st_heap (snd (process_items tag url items st collected_data))) x
    = is_dict_val (st_heap st) x.
Proof.
  induction items as [|item items IH]; simpl; intros st collected_data; [reflexivity|].
  destruct (is_dict_val (st_heap st) item); rewrite IH; [|reflexivity].
  apply (tag_is_dict _ _ _ Htag).
Qed.

Lemma process_items_frame url items l :
  forall st collected_data,
    ~ In (VRef l) (List.filter (is_dict_val (st_heap st)) items) ->
    st_heap (snd (process_items tag url items st collected_data)) !! l = st_heap st !! l.
Proof.
  induction items as [|item items IH]; simpl; intros st collected_data Hout; [reflexivity|].
  destruct (is_dict_val (st_heap st) item) eqn:Hd.
  - rewrite IH.
    + apply (tag_frame _ _ _ Htag). intros ->. apply Hout. now left.
    + intros Hin. apply Hout. right.
      erewrite filter_ext; [exact Hin|]. intros x. simpl.
      symmetry. apply (tag_is_dict _ _ _ Htag).
  - now apply IH.
Qed.

Lemma process_items_other_keys url items x k :
  ~ In k prov_keys ->
  forall st collected_data,
    get_item (st_heap (snd (process_items tag url items st collected_data))) x k
    = get_item (st_heap st) x k.
Proof.
  intros Hk. induction items as [|item items IH]; simpl; intros st collected_data;
    [reflexivity|].
  destruct (is_dict_val (st_heap st) item); rewrite IH; [|reflexivity].
  now apply (tag_other_keys _ _ _ Htag).
Qed.

Lemma process_items_provenance url clock0 items :
  forall st collected_data,
    (clock0 <= st_clock st)%nat ->
    Forall (provenance url clock0 st) collected_data ->
    Forall (provenance url clock0 (snd (process_items tag url items st collected_data)))
      (fst (process_items tag url items st collected_data)).
Proof.
  induction items as [|item items IH]; simpl; intros st collected_data Hc Hacc;
    [assumption|].
  destruct (is_dict_val (st_heap st) item) eqn:Hd; [|now apply IH].
  apply IH.
  - rewrite (tag_clock _ _ _ Htag). lia.
  - apply Forall_app. split.
    + eapply Forall_impl; [exact Hacc|]. intros x. now apply (tag_keeps _ _ _ Htag).
    + repeat constructor. now apply (tag_self _ _ _ Htag).
Qed.

(** The records of one response: which they are. *)
Lemma process_response_records r st :
  fst (process_response tag r st [])
  = match hr_data r with
    | VRef l =>
        match st_heap st !! l with
        | Some (OList items) => List.filter (is_dict_val (st_heap st)) items
        | Some (ODict _) => [hr_data r]
        | None => []
        end
    | _ => []
    end.
Proof.
  unfold process_response. destruct (hr_data r) as [| | | | |l]; try reflexivity.
  destruct (st_heap st !! l) as [[es|items]|]; try reflexivity.
  apply process_items_records.
Qed.

Lemma process_response_records_are_dicts r st x :
  In x (fst (process_response tag r st [])) -> is_dict_val (st_heap st) x = true.
Proof.
  rewrite process_response_records. destruct (hr_data r) as [| | | | |l]; try (intros []).
  destruct (st_heap st !! l) as [[es|items]|] eqn:Hl.
  - intros [<-|[]]. simpl. now rewrite Hl.
  - intros Hin. now apply filter_In in Hin.
  - intros [].
Qed.

(** What one response leaves untouched. *)
Lemma process_response_frame r st l :
  ~ In (VRef l) (fst (process_response tag r st [])) ->
  st_heap (snd (process_response tag r st [])) !! l = st_heap st !! l.
Proof.
  rewrite process_response_records. unfold process_response.
  destruct (hr_data r) as [| | | | |l0]; try reflexivity.
  destruct (st_heap st !! l0) as [[es|items]|]; try reflexivity.
  - intros Hout. apply (tag_frame _ _ _ Htag). intros Heq. apply Hout. now left.
  - apply process_items_frame.
Qed.

Lemma process_response_other_keys r st x k :
  ~ In k prov_keys ->
  get_item (st_heap (snd (process_response tag r st []))) x k = get_item (st_heap st) x k.
Proof.
  intros Hk. unfold process_response.
  destruct (hr_data r) as [| | | | |l0]; try reflexivity.
  destruct (st_heap st !! l0) as [[es|items]|]; try reflexivity.
  - now apply (tag_other_keys _ _ _ Htag).
  - now apply process_items_other_keys.
Qed.

Lemma process_response_provenance r st :
  Forall (provenance (hr_url r) (st_clock st) (snd (process_response tag r st [])))
    (fst (process_response tag r st [])).
Proof.
  unfold process_response.
  destruct (hr_data r) as [| | | | |l0] eqn:Hdata; try constructor.
  destruct (st_heap st !! l0) as [[es|items]|] eqn:Hl0; try constructor.
  - apply (tag_self _ _ _ Htag); [|lia]. simpl. now rewrite Hl0.
  - constructor.
  - apply process_items_provenance; [lia|constructor].
Qed.
End extraction_loop.

(** ** The claims about the record extractor *)

(** C2, as stated, fails: after extraction the captured body reads
    differently, its two mappings holding the provenance keys. *)
Lemma extraction_mutates_captured_body :
  let '(r, h, (records, st')) := three_element_run in
  read 3 h (hr_data r) = Some three_element_body /\
  read 3 (st_heap st') (hr_data r)
  = Some (JList [JDict [("id", JInt 1); ("umpire_name", JStr "Pat Hoberg");
                        ("scraped_at", JStr "2025-09-14T10:22:33.000000");
                        ("source_url",
                         JStr "https://umpscorecards.com/api/umpires/Pat%20Hoberg")];
                 JDict [("id", JInt 2); ("umpire_name", JStr "Pat Hoberg");
                        ("scraped_at", JStr "2025-09-14T10:22:33.000001");
                        ("source_url",
                         JStr "https://umpscorecards.com/api/umpires/Pat%20Hoberg")];
                 JStr "not-a-map"]) /\
  read 3 (st_heap st') (hr_data r) <> read 3 h (hr_data r).
Proof. split; [reflexivity|split; [reflexivity|discriminate]]. Qed.

(** C2, amended. The records the extractor returns are the mapping elements
    of the captured body themselves, in order (the body itself when it is a
    mapping), by reference, and extraction writes the provenance into each
    of them in place: the umpire name, the source URL and a reading of the
    clock under scraped_at in the scorecard scraper; the umpire name and a
    reading of the clock under scraped_timestamp in the simple scraper.
    Nothing else changes: every sequence, the body included, holds the same
    elements after extraction, every object that is not a record is the same
    as before, and so is every other key of every mapping. *)
Theorem extraction_changes_only_provenance_of_records :
  forall now_isoformat umpire_name r st,
    let scorecard := scorecard_extract now_isoformat umpire_name r st in
    let simple := simple_extract now_isoformat umpire_name r st in
    fst scorecard = records_of (st_heap st) r /\
    fst simple = records_of (st_heap st) r /\
    Forall (scorecard_provenance now_isoformat umpire_name (hr_url r) (st_clock st)
              (snd scorecard)) (records_of (st_heap st) r) /\
    Forall (simple_provenance now_isoformat umpire_name (hr_url r) (st_clock st)
              (snd simple)) (records_of (st_heap st) r) /\
    (forall (l : loc) items,
        st_heap st !! l = Some (OList items) ->
        st_heap (snd scorecard) !! l = Some (OList items) /\
        st_heap (snd simple) !! l = Some (OList items)) /\
    (forall l : loc,
        ~ In (VRef l) (records_of (st_heap st) r) ->
        st_heap (snd scorecard) !! l = st_heap st !! l /\
        st_heap (snd simple) !! l = st_heap st !! l) /\
    (forall x k, ~ In k scorecard_keys ->
                 get_item (st_heap (snd scorecard)) x k = get_item (st_heap st) x k) /\
    (forall x k, ~ In k simple_keys ->
                 get_item (st_heap (snd simple)) x k = get_item (st_heap st) x k).
Proof.
  intros now_isoformat umpire_name r st scorecard simple.
  pose proof (scorecard_tag_spec now_isoformat umpire_name) as Hsc.
  pose proof (simple_tag_spec now_isoformat umpire_name) as Hsi.
  assert (Hrsc : fst scorecard = records_of (st_heap st) r)
    by apply (process_response_records _ _ _ Hsc).
  assert (Hrsi : fst simple = records_of (st_heap st) r)
    by apply (process_response_records _ _ _ Hsi).
  assert (Hframe : forall l : loc,
             ~ In (VRef l) (records_of (st_heap st) r) ->
             st_heap (snd scorecard) !! l = st_heap st !! l /\
             st_heap (snd simple) !! l = st_heap st !! l).
  { intros l Hout. split.
    - apply (process_response_frame _ _ _ Hsc).
      rewrite (process_response_records _ _ _ Hsc). exact Hout.
    - apply (process_response_frame _ _ _ Hsi).
      rewrite (process_response_records _ _ _ Hsi). exact Hout. }
  split; [exact Hrsc|]. split; [exact Hrsi|].
  split; [|split; [|split; [|split; [exact Hframe|split]]]].
  - rewrite <- Hrsc. apply (process_response_provenance _ _ _ Hsc).
  - rewrite <- Hrsi. apply (process_response_provenance _ _ _ Hsi).
  - intros l items Hl.
    assert (Hout : ~ In (VRef l) (records_of (st_heap st) r)).
    { rewrite <- Hrsc. intros Hin.
      apply (process_response_records_are_dicts _ _ _ Hsc) in Hin.
      simpl in Hin. rewrite Hl in Hin. discriminate. }
    destruct (Hframe l Hout) as [H1 H2]. rewrite H1, H2. now split.
  - intros x k. eapply process_response_other_keys, Hsc.
  - intros x k. eapply process_response_other_keys, Hsi.
Qed.

Lemma extraction_changes_only_provenance_of_records_witness :
  let '(r, h, (records, st')) := three_element_run in
  records = [VRef 0%nat; VRef 1%nat] /\
  st_heap st' !! 2%nat = Some (OList [VRef 0%nat; VRef 1%nat; VStr "not-a-map"]) /\
  st_heap st' !! 2%nat = h !! 2%nat /\
  get_item (st_heap st') (VRef 0%nat) "id" = get_item h (VRef 0%nat) "id".
Proof.
  pose proof (extraction_changes_only_provenance_of_records ticking_clock "Pat Hoberg"
                (fst (load_response three_element_capture []))
                {| st_heap := snd (load_response three_element_capture []);
                   st_clock := 0 |})
    as (Hrecords & _ & _ & _ & Hlists & Hframe & Hkeys & _).
  split; [exact (eq_trans Hrecords eq_refl)|]. split; [|split].
  - apply (proj1 (Hlists 2%nat [VRef 0%nat; VRef 1%nat; VStr "not-a-map"] eq_refl)).
  - apply (Hframe 2%nat). simpl. intros [H|[H|[]]]; discriminate.
  - apply (Hkeys (VRef 0%nat) "id"). simpl. intros [H|[H|[H|[]]]]; discriminate.
Defined.





(** * Further properties *)

(** ** The flattener *)

Section flattenable_invariants.
Variable rec : json -> string -> result dict.

Lemma flatten_elements_is_ok new_key l :
  Forall (rec_flattenable rec) l ->
  forall i items,
    is_ok (flatten_elements rec new_key l i items) = forallb flattenable l.
Proof.
  induction 1 as [|x l Hx Hl IH]; simpl; intros i items; [reflexivity|].
  rewrite <- (Hx (new_key +:+ "_" +:+ pretty i)).
  destruct (rec x _) as [sub|e]; simpl; [apply IH|reflexivity].
Qed.

Lemma flatten_entry_is_ok new_key v items :
  (rec_flattenable rec) v -> on_children (rec_flattenable rec) v ->
  is_ok (flatten_entry rec new_key v items) = entry_flattenable flattenable v.
Proof.
  intros Hv Hc. destruct v as [| | | | |l|kvs]; try reflexivity.
  - destruct l as [|x l]; [reflexivity|].
    destruct x; try reflexivity.
    apply (flatten_elements_is_ok new_key _ Hc).
  - cbn [flatten_entry entry_flattenable]. rewrite <- (Hv new_key).
    destruct (rec _ _); reflexivity.
Qed.

Lemma flatten_loop_is_ok parent_key sep kvs :
  Forall (fun kv => (rec_flattenable rec) (snd kv)) kvs ->
  Forall (fun kv => on_children (rec_flattenable rec) (snd kv)) kvs ->
  forall items,
    is_ok (flatten_loop rec parent_key sep kvs items)
    = forallb (fun kv => entry_flattenable flattenable (snd kv)) kvs.
Proof.
  induction kvs as [|[k v] kvs IH]; cbn [flatten_loop forallb]; intros Hv Hc items;
    [reflexivity|].
  inversion Hv; inversion Hc; subst. cbn [snd].
  rewrite <- (flatten_entry_is_ok (new_key_of parent_key sep k) v items) by assumption.
  destruct (flatten_entry _ _ _ _) as [mid|e]; cbn [rbind is_ok andb];
    [now apply IH|reflexivity].
Qed.
End flattenable_invariants.

Lemma flatten_dict_is_ok sep v :
  forall parent_key, is_ok (flatten_dict v parent_key sep) = flattenable v.
Proof.
  induction v as [v Hc Hgc] using json_deep_ind. intros parent_key.
  destruct v as [| | | | | |kvs]; try reflexivity.
  cbn [flatten_dict flattenable].
  rewrite <- (flatten_loop_is_ok (fun v key => flatten_dict v key sep) parent_key sep kvs
                Hc Hgc []).
  destruct (flatten_loop _ _ _ _ _); reflexivity.
Qed.

(** X1. [flatten_dict] returns a row exactly on the values it can call
    [.items()] on throughout ([flattenable]); on every other value it raises
    AttributeError, and no other exception, whatever the parent key and the
    separator. *)
Theorem flatten_dict_succeeds_iff_flattenable :
  forall v parent_key sep,
    (flattenable v = true -> exists row, flatten_dict v parent_key sep = Ok row) /\
    (flattenable v = false -> flatten_dict v parent_key sep = Raise AttributeError).
Proof.
  intros v parent_key sep. pose proof (flatten_dict_is_ok sep v parent_key) as Hok.
  destruct (flatten_dict v parent_key sep) as [row|e] eqn:Hrun; simpl in Hok.
  - split; [intros _; now exists row|]. intros Hf. congruence.
  - split; [intros Hf; congruence|]. intros _. f_equal.
    eapply flatten_dict_error, Hrun.
Qed.

Lemma flatten_dict_succeeds_iff_flattenable_witness :
  (exists row, flatten_dict mixed_values_record EmptyString "_" = Ok row) /\
  flatten_dict unflattenable_record EmptyString "_" = Raise AttributeError.
Proof.
  split.
  - apply (proj1 (flatten_dict_succeeds_iff_flattenable mixed_values_record EmptyString "_")).
    reflexivity.
  - apply (proj2 (flatten_dict_succeeds_iff_flattenable unflattenable_record EmptyString "_")).
    reflexivity.
Defined.

Lemma string_app_assoc (a b c : string) : (a +:+ b) +:+ c = a +:+ (b +:+ c).
Proof.
  induction a as [|x a IH]; [reflexivity|].
  change (String x ((a +:+ b) +:+ c) = String x (a +:+ (b +:+ c))). now rewrite IH.
Qed.

Lemma truthy_str_app a b : truthy_str a = true -> truthy_str (a +:+ b) = true.
Proof. destruct a; [discriminate|reflexivity]. Qed.

Lemma Forall_dict_set {V} (P : string * V -> Prop) (d : list (string * V)) k v :
  Forall P d -> P (k, v) -> Forall P (dict_set d k v).
Proof.
  induction d as [|[k' v'] d IH]; simpl; intros Hd Hkv.
  - repeat constructor. exact Hkv.
  - inversion Hd; subst. destruct (String.eqb_spec k' k) as [->|Hne]; constructor; auto.
Qed.

Lemma Forall_dict_insert_all {V} (P : string * V -> Prop) (items acc : list (string * V)) :
  Forall P acc -> Forall P items -> Forall P (dict_insert_all acc items).
Proof.
  revert acc. induction items as [|[k v] items IH]; simpl; intros acc Hacc Hit; [assumption|].
  inversion Hit; subst. apply IH; [|assumption]. now apply Forall_dict_set.
Qed.

Lemma keys_under_deeper path sep more row :
  keys_under (path +:+ sep +:+ more) sep row -> keys_under path sep row.
Proof.
  unfold keys_under. intros H. eapply Forall_impl; [exact H|].
  intros [k v] [rest Hrest]. simpl in *.
  exists (more +:+ sep +:+ rest). rewrite Hrest. now rewrite !string_app_assoc.
Qed.

Lemma truthy_str_app_r a c b : truthy_str (a +:+ String c b) = true.
Proof. destruct a; reflexivity. Qed.

Section keys_under_invariants.
Variable sep : string.
Variable rec : json -> string -> result dict.

Lemma flatten_elements_keys_under parent_key more l :
  Forall (rec_keys_under sep rec) l ->
  forall i items items',
    keys_under parent_key sep items ->
    flatten_elements rec (parent_key +:+ sep +:+ more) l i items = Ok items' ->
    keys_under parent_key sep items'.
Proof.
  induction 1 as [|x l Hx Hl IH]; simpl; intros i items items' Hit Hrun.
  - congruence.
  - destruct (rec x _) as [sub|e] eqn:Hsub; simpl in Hrun; [|discriminate].
    eapply IH; [|exact Hrun]. apply Forall_app. split; [assumption|].
    apply Hx in Hsub; [|apply truthy_str_app_r].
    apply (keys_under_deeper parent_key sep (more +:+ "_" +:+ pretty i)).
    now rewrite <- !string_app_assoc in *.
Qed.

Lemma flatten_entry_keys_under parent_key k v items items' :
  rec_keys_under sep rec v -> on_children (rec_keys_under sep rec) v ->
  truthy_str parent_key = true ->
  keys_under parent_key sep items ->
  flatten_entry rec (parent_key +:+ sep +:+ k) v items = Ok items' ->
  keys_under parent_key sep items'.
Proof.
  intros Hv Hc Hp Hit Hrun.
  assert (Hleaf : forall x, keys_under parent_key sep
                              (items ++ [(parent_key +:+ sep +:+ k, x)])).
  { intros x. apply Forall_app. split; [assumption|]. repeat constructor. now exists k. }
  destruct v as [| | | | |l|kvs]; simpl in Hrun; try (injection Hrun as <-; apply Hleaf).
  - destruct l as [|[] l]; try (injection Hrun as <-; apply Hleaf).
    eapply flatten_elements_keys_under; [exact Hc|exact Hit|exact Hrun].
  - destruct (rec _ _) as [sub|e] eqn:Hsub; simpl in Hrun; [|discriminate].
    injection Hrun as <-. apply Forall_app. split; [assumption|].
    apply Hv in Hsub; [|now apply truthy_str_app].
    now apply (keys_under_deeper parent_key sep k).
Qed.

Lemma flatten_loop_keys_under parent_key kvs :
  truthy_str parent_key = true ->
  Forall (fun kv => rec_keys_under sep rec (snd kv)) kvs ->
  Forall (fun kv => on_children (rec_keys_under sep rec) (snd kv)) kvs ->
  forall items items',
    keys_under parent_key sep items ->
    flatten_loop rec parent_key sep kvs items = Ok items' ->
    keys_under parent_key sep items'.
Proof.
  intros Hp. induction kvs as [|[k v] kvs IH]; simpl; intros Hv Hc items items' Hit Hrun.
  - congruence.
  - inversion Hv; inversion Hc; subst.
    destruct (flatten_entry _ _ _ _) as [mid|e] eqn:Hmid; simpl in Hrun; [|discriminate].
    eapply IH; [assumption|assumption| |exact Hrun].
    unfold new_key_of in Hmid. rewrite Hp in Hmid.
    eapply flatten_entry_keys_under; eauto.
Qed.
End keys_under_invariants.

Lemma flatten_dict_keys_under sep v :
  forall parent_key row,
    truthy_str parent_key = true ->
    flatten_dict v parent_key sep = Ok row -> keys_under parent_key sep row.
Proof.
  induction v as [v Hc Hgc] using json_deep_ind. intros parent_key row Hp Hrun.
  destruct v as [| | | | | |kvs]; simpl in Hrun; try discriminate.
  destruct (flatten_loop _ _ _ _ _) as [items|e] eqn:Hloop; simpl in Hrun; [|discriminate].
  injection Hrun as <-.
  apply Forall_dict_insert_all; [constructor|].
  eapply (flatten_loop_keys_under sep (fun v key => flatten_dict v key sep));
    [exact Hp|exact Hc|exact Hgc|constructor|exact Hloop].
Qed.

(** X2. The row [flatten_dict] returns is a mapping, its keys pairwise
    distinct, and under a non-empty parent key every key of the row is the
    parent key, the separator and something more. *)
Theorem flatten_dict_row_keys :
  forall v parent_key sep row,
    flatten_dict v parent_key sep = Ok row ->
    List.NoDup (keys row) /\
    (truthy_str parent_key = true ->
     Forall (fun kv => exists rest, fst kv = parent_key +:+ sep +:+ rest) row).
Proof.
  intros v parent_key sep row Hrun. split.
  - destruct v as [| | | | | |kvs]; simpl in Hrun; try discriminate.
    destruct (flatten_loop _ _ _ _ _) as [items|e]; simpl in Hrun; [|discriminate].
    injection Hrun as <-. apply NoDup_keys_dict_of_items.
  - intros Hp. now apply (flatten_dict_keys_under sep v).
Qed.

Lemma flatten_dict_row_keys_witness :
  List.NoDup ["game_id"; "game_teams"] /\
  Forall (fun kv => exists rest, fst kv = "game" +:+ "_" +:+ rest)
    [("game_id", JInt 7); ("game_teams", JStr "['NYY', 'BOS']")].
Proof.
  pose proof (flatten_dict_row_keys
                (JDict [("id", JInt 7); ("teams", JList [JStr "NYY"; JStr "BOS"])])
                "game" "_" [("game_id", JInt 7); ("game_teams", JStr "['NYY', 'BOS']")]
                eq_refl) as [Hnd Hunder].
  split; [exact Hnd|]. apply Hunder. reflexivity.
Defined.

(** X3. Flattening is idempotent: the row of a record, flattened again as a
    record of its own, with any separator, is the same row. *)
Theorem flatten_dict_idempotent :
  forall record parent_key sep sep' row,
    flatten_dict record parent_key sep = Ok row ->
    flatten_dict (JDict row) EmptyString sep' = Ok row.
Proof.
  intros record parent_key sep sep' row Hrun.
  assert (Hflat : Forall (fun kv => is_scalar (snd kv) = true) row)
    by (eapply flatten_dict_scalar, Hrun).
  assert (Hnd : List.NoDup (keys row)).
  { destruct record as [| | | | | |kvs]; simpl in Hrun; try discriminate.
    destruct (flatten_loop _ _ _ _ _) as [items|e]; simpl in Hrun; [|discriminate].
    injection Hrun as <-. apply NoDup_keys_dict_of_items. }
  rewrite flatten_dict_rule; [|reflexivity|now apply homogeneous_flat].
  rewrite collected_pairs_flat by assumption.
  now rewrite dict_of_items_id.
Qed.

Lemma flatten_dict_idempotent_witness :
  flatten_dict (JDict [("game_id", JInt 7); ("game_teams", JStr "['NYY', 'BOS']");
                       ("calls_0_zone", JInt 1); ("calls_1_zone", JInt 2);
                       ("notes", JStr "[]"); ("date", JStr "2024-06-15")])
    EmptyString "-"
  = Ok [("game_id", JInt 7); ("game_teams", JStr "['NYY', 'BOS']");
        ("calls_0_zone", JInt 1); ("calls_1_zone", JInt 2); ("notes", JStr "[]");
        ("date", JStr "2024-06-15")].
Proof.
  apply (flatten_dict_idempotent mixed_values_record EmptyString "_" "-"). reflexivity.
Defined.

Lemma flatten_elements_indexed_keys sep new_key l :
  forall i items items',
    flatten_elements (fun v key => flatten_dict v key sep) new_key l i items = Ok items' ->
    exists subs,
      items' = items ++ subs /\
      Forall (fun kv => exists j rest,
                (i <= j < i + length l)%nat /\
                fst kv = new_key +:+ "_" +:+ pretty j +:+ sep +:+ rest) subs.
Proof.
  induction l as [|x l IH]; simpl; intros i items items' Hrun.
  - injection Hrun as <-. exists []. split; [now rewrite app_nil_r|constructor].
  - destruct (flatten_dict x _ sep) as [sub|e] eqn:Hsub; simpl in Hrun; [|discriminate].
    destruct (IH _ _ _ Hrun) as (subs & -> & Hsubs).
    exists (sub ++ subs). split; [now rewrite app_assoc|].
    apply Forall_app. split.
    + apply flatten_dict_keys_under in Hsub; [|apply truthy_str_app_r].
      eapply Forall_impl; [exact Hsub|]. intros [k v] [rest Hrest]. simpl in *.
      exists i, rest. split; [lia|]. rewrite Hrest. now rewrite !string_app_assoc.
    + eapply Forall_impl; [exact Hsubs|]. intros [k v] (j & rest & Hj & Hk).
      exists j, rest. split; [lia|exact Hk].
Qed.



(** ** Saving *)

Lemma flatten_all_ok data :
  forallb flattenable data = true ->
  forall flattened_data, exists rows,
    flatten_all data flattened_data = Ok (flattened_data ++ rows) /\
    Forall2 (fun item row => flatten_dict item EmptyString "_" = Ok row) data rows.
Proof.
  induction data as [|item data IH]; simpl; intros Hall flattened_data.
  - exists []. split; [now rewrite app_nil_r|constructor].
  - apply andb_prop in Hall as [Hitem Hall].
    pose proof (flatten_dict_is_ok "_" item EmptyString) as Hok. rewrite Hitem in Hok.
    destruct (flatten_dict item EmptyString "_") as [row|e] eqn:Hrow; [|discriminate].
    simpl. destruct (IH Hall (flattened_data ++ [row])) as (rows & Hrun & Hrows).
    exists (row :: rows). split.
    + rewrite Hrun, <- app_assoc. reflexivity.
    + now constructor.
Qed.

Lemma flatten_all_raises data :
  forallb flattenable data = false ->
  forall flattened_data, flatten_all data flattened_data = Raise AttributeError.
Proof.
  induction data as [|item data IH]; simpl; intros Hall flattened_data; [discriminate|].
  pose proof (flatten_dict_is_ok "_" item EmptyString) as Hok.
  destruct (flatten_dict item EmptyString "_") as [row|e] eqn:Hrow; simpl.
  - simpl in Hok. rewrite <- Hok in Hall. simpl in Hall. now apply IH.
  - f_equal. eapply flatten_dict_error, Hrow.
Qed.

(** X5. [save_to_csv] of the scorecard scraper, on the file system it is
    given.  With no record it logs a warning, returns None and leaves the
    file system alone.  When every record can be flattened, the writer is
    called once, on the joined path of the given (or default) file name and
    on one row per record, each the flattening of its record, in order; the
    call returns that path after two info messages when the writer succeeds,
    and raises what the writer raises, with nothing logged, when it fails;
    the file system is the one the writer leaves.  One record that cannot be
    flattened makes the call raise AttributeError with the file system
    untouched: the writer is not called. *)
Theorem scorecard_save_to_csv_rows :
  forall (fs : Type) path_join cwd timestamp
         (to_csv : string -> list dict -> fs -> fs * result unit)
         item data filename disk,
    let output_path := path_join cwd (output_filename timestamp filename) in
    scorecard_save_to_csv fs path_join cwd timestamp to_csv [] filename disk
    = ([(WARNING, "No data to save")], disk, Ok None) /\
    (forallb flattenable (item :: data) = true ->
     exists rows,
       Forall2 (fun item row => flatten_dict item EmptyString "_" = Ok row)
         (item :: data) rows /\
       scorecard_save_to_csv fs path_join cwd timestamp to_csv (item :: data) filename disk
       = match to_csv output_path rows disk with
         | (disk', Ok _) =>
             ([(INFO, "Data saved to"); (INFO, "Saved")], disk', Ok (Some output_path))
         | (disk', Raise e) => ([], disk', Raise e)
         end) /\
    (forallb flattenable (item :: data) = false ->
     scorecard_save_to_csv fs path_join cwd timestamp to_csv (item :: data) filename disk
     = ([], disk, Raise AttributeError)).
Proof.
  intros fs path_join cwd timestamp to_csv item data filename disk output_path.
  split; [reflexivity|]. unfold scorecard_save_to_csv. split.
  - intros Hall. destruct (flatten_all_ok (item :: data) Hall []) as (rows & Hrun & Hrows).
    rewrite Hrun. simpl. exists rows. split; [exact Hrows|reflexivity].
  - intros Hall. now rewrite flatten_all_raises.
Qed.

Lemma scorecard_save_to_csv_rows_witness :
  scorecard_save_to_csv sample_disk sample_path_join "/home/user" "20250914_102233"
    sample_to_csv [nested_mapping_record; sequence_of_mappings_record] (Some "out.csv") []
  = ([(INFO, "Data saved to"); (INFO, "Saved")],
     [("/home/user/out.csv",
       [[("a_b", JInt 1)]; [("a_0_x", JInt 1); ("a_1_x", JInt 2)]])],
     Ok (Some "/home/user/out.csv")) /\
  scorecard_save_to_csv sample_disk sample_path_join "/home/user" "20250914_102233"
    sample_to_csv [nested_mapping_record; sequence_of_mappings_record]
    (Some "missing_dir/out.csv") []
  = ([], [], Raise OSError) /\
  scorecard_save_to_csv sample_disk sample_path_join "/home/user" "20250914_102233"
    sample_to_csv [nested_mapping_record; unflattenable_record] None []
  = ([], [], Raise AttributeError).
Proof.
  split; [|split].
  - destruct (proj1 (proj2 (scorecard_save_to_csv_rows sample_disk sample_path_join
                              "/home/user" "20250914_102233" sample_to_csv
                              nested_mapping_record [sequence_of_mappings_record]
                              (Some "out.csv") [])) eq_refl) as (rows & Hrows & ->).
    inversion Hrows as [|? row1 ? rows1 H1 Hrows1]; subst.
    inversion Hrows1 as [|? row2 ? rows2 H2 Hrows2]; subst.
    inversion Hrows2; subst.
    injection H1 as <-. injection H2 as <-. reflexivity.
  - destruct (proj1 (proj2 (scorecard_save_to_csv_rows sample_disk sample_path_join
                              "/home/user" "20250914_102233" sample_to_csv
                              nested_mapping_record [sequence_of_mappings_record]
                              (Some "missing_dir/out.csv") [])) eq_refl) as (rows & _ & ->).
    reflexivity.
  - apply (proj2 (proj2 (scorecard_save_to_csv_rows sample_disk sample_path_join
                           "/home/user" "20250914_102233" sample_to_csv
                           nested_mapping_record [unflattenable_record] None []))).
    reflexivity.
Defined.

(** ** The date filter *)

Lemma filter_filter_same {A} (f : A -> bool) (l : list A) :
  List.filter f (List.filter f l) = List.filter f l.
Proof.
  induction l as [|x l IH]; simpl; [reflexivity|].
  destruct (f x) eqn:Hx; simpl; [rewrite Hx, IH|]; auto.
Qed.

Lemma simple_filter_loop_ok start_dt end_dt data :
  utcoffset start_dt = None -> utcoffset end_dt = None ->
  Forall (fun item => is_ok (in_range simple_item_date start_dt end_dt item) = true) data.
Proof.
  intros Hs He. apply Forall_forall. intros item _. unfold in_range.
  destruct (simple_item_date item) as [d|] eqn:Hd; [|reflexivity].
  rewrite datetime_between_naive; try assumption; [reflexivity|].
  eapply simple_item_date_in_naive, Hd.
Qed.

(** X6. [filter_by_date_range] of the simple scraper never raises, and with
    bounds that parse it returns, in their order, exactly the items whose
    first parsing date field lies between the bounds, both ends included. *)
Theorem simple_filter_by_date_range_exact :
  forall data start_date end_date,
    is_ok (snd (simple_filter_by_date_range data start_date end_date)) = true /\
    (forall start_dt end_dt,
        bound_given start_date || bound_given end_date = true ->
        simple_bound start_date datetime_min = Some start_dt ->
        simple_bound end_date datetime_max = Some end_dt ->
        simple_filter_by_date_range data start_date end_date
        = ([(INFO, "Filtered to")],
           Ok (List.filter
                 (fun item => match simple_item_date item with
                              | Some d => naive_between start_dt d end_dt
                              | None => false
                              end) data))).
Proof.
  intros data start_date end_date. split.
  - unfold simple_filter_by_date_range.
    destruct (negb _); [reflexivity|].
    destruct (simple_bound start_date datetime_min) as [start_dt|] eqn:Hs; [|reflexivity].
    destruct (simple_bound end_date datetime_max) as [end_dt|] eqn:He; [|reflexivity].
    rewrite filter_loop_ok; [reflexivity|].
    apply simple_filter_loop_ok.
    + eapply simple_bound_naive; [|exact Hs]. reflexivity.
    + eapply simple_bound_naive; [|exact He]. reflexivity.
  - intros start_dt end_dt. apply simple_filter_by_date_range_keeps.
Qed.

Lemma simple_filter_by_date_range_exact_witness :
  simple_filter_by_date_range
    [dated "2023-12-31"; dated "2024-01-01"; dated "06/15/2024"; dated "n/a";
     dated "2024-12-31T23:59:59Z"; dated "2025-01-01"]
    (Some "2024-01-01") (Some "2024-12-31")
  = ([(INFO, "Filtered to")],
     Ok [dated "2024-01-01"; dated "06/15/2024"; dated "2024-12-31T23:59:59Z"]).
Proof.
  rewrite (proj2 (simple_filter_by_date_range_exact _ (Some "2024-01-01")
                    (Some "2024-12-31")) (naive_date 2024 1 1) (naive_date 2024 12 31))
    by reflexivity.
  reflexivity.
Defined.

(** X7. In the simple scraper a given bound that does not parse as
    YYYY-MM-DD makes [filter_by_date_range] log one error and return the
    input sequence itself, unfiltered. *)
Theorem simple_filter_by_date_range_degrades :
  forall data start_date end_date,
    bound_given start_date || bound_given end_date = true ->
    simple_bound start_date datetime_min = None \/
    simple_bound end_date datetime_max = None ->
    simple_filter_by_date_range data start_date end_date
    = ([(ERROR, "Invalid date format")], Ok data).
Proof. exact simple_filter_by_date_range_bad_bound. Qed.

Lemma simple_filter_by_date_range_degrades_witness :
  simple_filter_by_date_range [dated "2023-12-31"; dated "2024-06-15"]
    (Some "2024-01-01") (Some "31/12/2024")
  = ([(ERROR, "Invalid date format")], Ok [dated "2023-12-31"; dated "2024-06-15"]).
Proof.
  apply (simple_filter_by_date_range_degrades _ (Some "2024-01-01") (Some "31/12/2024"));
    [reflexivity|right; reflexivity].
Defined.

(** X8. Filtering is idempotent in the simple scraper: filtering the result
    again with the same bounds returns the same sequence. *)
Theorem simple_filter_by_date_range_idempotent :
  forall data start_date end_date filtered_data,
    snd (simple_filter_by_date_range data start_date end_date) = Ok filtered_data ->
    snd (simple_filter_by_date_range filtered_data start_date end_date) = Ok filtered_data.
Proof.
  intros data start_date end_date filtered_data.
  destruct (bound_given start_date || bound_given end_date) eqn:Hgiven.
  - destruct (simple_bound start_date datetime_min) as [start_dt|] eqn:Hs.
    + destruct (simple_bound end_date datetime_max) as [end_dt|] eqn:He.
      * rewrite !(simple_filter_by_date_range_keeps _ _ _ start_dt end_dt) by assumption.
        simpl. intros [= <-]. now rewrite filter_filter_same.
      * rewrite !simple_filter_by_date_range_bad_bound by (assumption || now right).
        simpl. now intros [= <-].
    + rewrite !simple_filter_by_date_range_bad_bound by (assumption || now left).
      simpl. now intros [= <-].
  - unfold simple_filter_by_date_range. rewrite Hgiven. simpl. now intros [= <-].
Qed.

Lemma simple_filter_by_date_range_idempotent_witness :
  snd (simple_filter_by_date_range [dated "2024-06-15"]
         (Some "2024-01-01") (Some "2024-12-31"))
  = Ok [dated "2024-06-15"].
Proof.
  apply (simple_filter_by_date_range_idempotent
           [dated "2023-12-31"; dated "2024-06-15"; dated "n/a"]).
  reflexivity.
Defined.

Lemma int_of_digits_nonneg text : forall acc, 0 <= acc -> 0 <= int_of_digits acc text.
Proof.
  induction text as [|c text IH]; simpl; intros acc Hacc; [assumption|].
  destruct (_ && _)%N eqn:Hd; [|now apply IH].
  apply IH. apply andb_prop in Hd as [Hlo _]. apply N.leb_le in Hlo.
  change (N_of_ascii "0") with 48%N in Hlo. lia.
Qed.

Lemma group_value_nonneg gs name default :
  0 <= default -> 0 <= group_value gs name default.
Proof.
  intros Hd. induction gs as [|[n text] gs IH]; simpl; [assumption|].
  destruct (Ascii.eqb n name); [|assumption]. now apply int_of_digits_nonneg.
Qed.

Lemma days_in_month_le_31 y m : 1 <= m <= 12 -> days_in_month y m <= 31.
Proof.
  intros Hm. unfold days_in_month. destruct ((m =? 2) && is_leap y); [lia|].
  assert (Hcases : m = 1 \/ m = 2 \/ m = 3 \/ m = 4 \/ m = 5 \/ m = 6 \/ m = 7 \/
                   m = 8 \/ m = 9 \/ m = 10 \/ m = 11 \/ m = 12) by lia.
  repeat (destruct Hcases as [->|Hcases]; [simpl; lia|]). subst. simpl. lia.
Qed.

(** The fields of a date [strptime] returns are those of a calendar day. *)
Lemma strptime_fields s fmt d :
  strptime s fmt = Some d ->
  1 <= year d <= 9999 /\ 1 <= month d <= 12 /\ 1 <= day d <= 31 /\
  0 <= hour d < 24 /\ 0 <= minute d < 60 /\ 0 <= second d < 60 /\ microsecond d = 0.
Proof.
  unfold strptime. destruct (match_tokens _ _) as [[gs [|c rest]]|]; try discriminate.
  destruct (_ && _) eqn:Hchecks; [|discriminate]. intros [= <-]. simpl.
  repeat match goal with
         | H : _ && _ = true |- _ => apply andb_prop in H as [H ?]
         end.
  repeat match goal with
         | H : (_ <=? _) = true |- _ => apply Z.leb_le in H
         | H : (_ <? _) = true |- _ => apply Z.ltb_lt in H
         end.
  pose proof (days_in_month_le_31 (group_value gs "Y" 1900) (group_value gs "m" 1)
                ltac:(lia)).
  pose proof (group_value_nonneg gs "H" 0 ltac:(lia)).
  pose proof (group_value_nonneg gs "M" 0 ltac:(lia)).
  pose proof (group_value_nonneg gs "S" 0 ltac:(lia)).
  lia.
Qed.

Lemma first_format_fields date_str formats d :
  first_format date_str formats = Some d ->
  1 <= year d <= 9999 /\ 1 <= month d <= 12 /\ 1 <= day d <= 31 /\
  0 <= hour d < 24 /\ 0 <= minute d < 60 /\ 0 <= second d < 60 /\ microsecond d = 0.
Proof.
  induction formats as [|fmt formats IH]; cbn [first_format]; [discriminate|].
  destruct (strptime _ fmt) as [d'|] eqn:Hp; [|exact IH].
  intros [= <-]. eapply strptime_fields, Hp.
Qed.

Lemma simple_item_date_in_fields date_fields item d :
  simple_item_date_in date_fields item = Some d ->
  1 <= year d <= 9999 /\ 1 <= month d <= 12 /\ 1 <= day d <= 31 /\
  0 <= hour d < 24 /\ 0 <= minute d < 60 /\ 0 <= second d < 60 /\ microsecond d = 0.
Proof.
  induction date_fields as [|field rest IH]; cbn [simple_item_date_in]; [discriminate|].
  destruct (dict_get item field) as [v|]; [|exact IH].
  destruct (truthy v); [|exact IH].
  destruct (first_format (py_str v) simple_formats) as [d'|] eqn:Hp; [|exact IH].
  intros [= <-]. eapply first_format_fields, Hp.
Qed.

Ltac lex_le_by_cases :=
  unfold lex_le, fields, datetime_min, datetime_max, naive_date;
  cbn [year month day hour minute second microsecond];
  rewrite ?orb_true_iff, ?andb_true_iff, ?Z.ltb_lt, ?Z.eqb_eq; lia.

(** No calendar day lies outside [datetime.min] and [datetime.max]. *)
Lemma calendar_day_within_min_max d :
  1 <= year d <= 9999 /\ 1 <= month d <= 12 /\ 1 <= day d <= 31 /\
  0 <= hour d < 24 /\ 0 <= minute d < 60 /\ 0 <= second d < 60 /\ microsecond d = 0 ->
  lex_le (fields datetime_min) (fields d) = true /\
  lex_le (fields d) (fields datetime_max) = true.
Proof.
  intros (Hy & Hm & Hd & HH & HM & HS & Hus). split; lex_le_by_cases.
Qed.

(** X9. An open bound is open in the simple scraper: with a start bound
    only, an item is kept exactly when its date is on or after the start,
    and with an end bound only, exactly when it is on or before the end; the
    defaults [datetime.min] and [datetime.max] exclude nothing. *)
Theorem simple_filter_by_date_range_open_bounds :
  forall data bound bound_dt,
    truthy_str bound = true ->
    strptime bound "%Y-%m-%d" = Some bound_dt ->
    simple_filter_by_date_range data (Some bound) None
    = ([(INFO, "Filtered to")],
       Ok (List.filter
             (fun item => match simple_item_date item with
                          | Some d => lex_le (fields bound_dt) (fields d)
                          | None => false
                          end) data)) /\
    simple_filter_by_date_range data None (Some bound)
    = ([(INFO, "Filtered to")],
       Ok (List.filter
             (fun item => match simple_item_date item with
                          | Some d => lex_le (fields d) (fields bound_dt)
                          | None => false
                          end) data)).
Proof.
  intros data bound bound_dt Hgiven Hparse. split.
  - rewrite (simple_filter_by_date_range_keeps data (Some bound) None bound_dt datetime_max);
      [|simpl; now rewrite Hgiven|simpl; now rewrite Hgiven|reflexivity].
    do 2 f_equal. apply filter_ext. intros item.
    destruct (simple_item_date item) as [d|] eqn:Hd; [|reflexivity].
    apply simple_item_date_in_fields, calendar_day_within_min_max in Hd as [_ Hmax].
    unfold naive_between. now rewrite Hmax, andb_true_r.
  - rewrite (simple_filter_by_date_range_keeps data None (Some bound) datetime_min bound_dt);
      [|simpl; now rewrite Hgiven|reflexivity|simpl; now rewrite Hgiven].
    do 2 f_equal. apply filter_ext. intros item.
    destruct (simple_item_date item) as [d|] eqn:Hd; [|reflexivity].
    apply simple_item_date_in_fields, calendar_day_within_min_max in Hd as [Hmin _].
    unfold naive_between. now rewrite Hmin.
Qed.

Lemma simple_filter_by_date_range_open_bounds_witness :
  simple_filter_by_date_range
    [dated "0001-01-01"; dated "2024-06-15"; dated "9999-12-31"] (Some "2024-06-15") None
  = ([(INFO, "Filtered to")], Ok [dated "2024-06-15"; dated "9999-12-31"]) /\
  simple_filter_by_date_range
    [dated "0001-01-01"; dated "2024-06-15"; dated "9999-12-31"] None (Some "2024-06-15")
  = ([(INFO, "Filtered to")], Ok [dated "0001-01-01"; dated "2024-06-15"]).
Proof.
  destruct (simple_filter_by_date_range_open_bounds
              [dated "0001-01-01"; dated "2024-06-15"; dated "9999-12-31"]
              "2024-06-15" (naive_date 2024 6 15) eq_refl eq_refl) as [Hstart Hend].
  split; [rewrite Hstart|rewrite Hend]; reflexivity.
Defined.



(** ** [strptime] on ten characters *)

Lemma match_alternative_length alt :
  forall s text rest,
    match_alternative alt s = Some (text, rest) ->
    String.length s = (length alt + String.length rest)%nat.
Proof.
  induction alt as [|p alt IH]; simpl; intros s text rest Hm.
  - now injection Hm as _ <-.
  - destruct s as [|c s]; [discriminate|]. destruct (pat_matches p c); [|discriminate].
    destruct (match_alternative alt s) as [[text' rest']|] eqn:Hrec; [|discriminate].
    injection Hm as _ <-. simpl. now rewrite (IH _ _ _ Hrec).
Qed.

Lemma fold_min_length_le (alts : list (list pat)) (x : nat) :
  (fold_right (fun a acc => Nat.min (length a) acc) x alts <= x)%nat /\
  (forall alt, In alt alts ->
     (fold_right (fun a acc => Nat.min (length a) acc) x alts <= length alt)%nat).
Proof.
  induction alts as [|a alts [IHx IHin]]; simpl.
  - split; [lia|intros alt []].
  - split; [lia|]. intros alt [->|Hin]; [lia|]. specialize (IHin alt Hin). lia.
Qed.

Lemma min_alternative_length_le alts alt :
  In alt alts -> (min_alternative_length alts <= length alt)%nat.
Proof.
  destruct alts as [|a0 alts]; [intros []|]. simpl.
  destruct (fold_min_length_le alts (length a0)) as [Hx Hin].
  intros [->|H]; [exact Hx|now apply Hin].
Qed.

Section matching_inversion.
Variable continue : string -> option (groups * string).

Lemma try_alternatives_inv name alts s gs final :
  try_alternatives continue name alts s = Some (gs, final) ->
  exists alt text rest gs',
    In alt alts /\ match_alternative alt s = Some (text, rest) /\
    continue rest = Some (gs', final) /\ gs = (name, text) :: gs'.
Proof.
  induction alts as [|alt alts IH]; simpl; [discriminate|].
  destruct (match_alternative alt s) as [[text rest]|] eqn:Hm.
  - destruct (continue rest) as [[gs' final']|] eqn:Hk.
    + intros [= <- <-]. exists alt, text, rest, gs'. auto.
    + intros H. destruct (IH H) as (a & t & r & g & Hin & ?). exists a, t, r, g. auto.
  - intros H. destruct (IH H) as (a & t & r & g & Hin & ?). exists a, t, r, g. auto.
Qed.

Lemma match_spaces_inv s r :
  match_spaces continue s = Some r ->
  exists s', continue s' = Some r /\ (1 + String.length s' <= String.length s)%nat.
Proof.
  induction s as [|c s IH]; simpl; [discriminate|].
  destruct (is_space c); [|discriminate].
  destruct (match_spaces continue s) as [r'|] eqn:Hrec.
  - intros [= <-]. destruct (IH eq_refl) as (s' & Hk & Hlen). exists s'. split; [auto|lia].
  - intros Hk. exists s. split; [exact Hk|lia].
Qed.
End matching_inversion.

Lemma match_tokens_inv toks :
  forall s gs rest,
    match_tokens toks s = Some (gs, rest) ->
    (format_min_length toks + String.length rest <= String.length s)%nat /\
    map fst gs = directive_names toks.
Proof.
  induction toks as [|t toks IH]; intros s gs rest Hm.
  - injection Hm as <- <-. split; [simpl; lia|reflexivity].
  - destruct t as [name|c|]; cbn [match_tokens] in Hm.
    + destruct (directive_alternatives name) as [alts|] eqn:Halts; [|discriminate].
      apply try_alternatives_inv in Hm as (alt & text & r & gs' & Hin & Halt & Hk & ->).
      apply IH in Hk as [Hlen Hnames]. apply match_alternative_length in Halt.
      apply min_alternative_length_le in Hin.
      split.
      * cbn [format_min_length fold_right token_min_length]. rewrite Halts.
        fold (format_min_length toks). lia.
      * simpl. now rewrite Hnames.
    + destruct s as [|c' s]; [discriminate|].
      destruct (Ascii.eqb _ _); [|discriminate].
      apply IH in Hm as [Hlen Hnames]. split; [|exact Hnames].
      cbn [format_min_length fold_right token_min_length String.length].
      fold (format_min_length toks). lia.
    + apply match_spaces_inv in Hm as (s' & Hk & Hlen').
      apply IH in Hk as [Hlen Hnames]. split; [|exact Hnames].
      cbn [format_min_length fold_right token_min_length].
      fold (format_min_length toks). lia.
Qed.

Lemma take_chars_length n : forall s, (String.length (take_chars n s) <= n)%nat.
Proof.
  induction n as [|n IH]; intros s; [destruct s; simpl; lia|].
  destruct s as [|c s]; simpl; [lia|]. specialize (IH s). lia.
Qed.

(** The format with a time of day needs fourteen characters. *)
Lemma strptime_time_format_dead date_str :
  strptime (take_chars 10 date_str) "%Y-%m-%d %H:%M:%S" = None.
Proof.
  unfold strptime.
  destruct (match_tokens _ _) as [[gs rest]|] eqn:Hm; [|reflexivity].
  apply match_tokens_inv in Hm as [Hlen _].
  pose proof (take_chars_length 10 date_str) as Hten.
  change (format_min_length (tokens_of_format "%Y-%m-%d %H:%M:%S")) with 14%nat in Hlen.
  lia.
Qed.

Lemma group_value_absent gs name default :
  ~ In name (map fst gs) -> group_value gs name default = default.
Proof.
  induction gs as [|[n text] gs IH]; simpl; intros Hout; [reflexivity|].
  destruct (Ascii.eqb_spec n name) as [->|Hne]; [exfalso; apply Hout; now left|].
  apply IH. intros Hin. apply Hout. now right.
Qed.

Lemma strptime_day_format_midnight s fmt d :
  In fmt simple_day_formats -> strptime s fmt = Some d ->
  hour d = 0 /\ minute d = 0 /\ second d = 0 /\ microsecond d = 0.
Proof.
  intros Hfmt. unfold strptime.
  destruct (match_tokens _ _) as [[gs [|c rest]]|] eqn:Hm; try discriminate.
  destruct (_ && _); [|discriminate]. intros [= <-]. simpl.
  apply match_tokens_inv in Hm as [_ Hnames].
  assert (Hno : ~ In "H"%char (map fst gs) /\ ~ In "M"%char (map fst gs) /\
                ~ In "S"%char (map fst gs)).
  { rewrite Hnames. destruct Hfmt as [<-|[<-|[<-|[]]]]; simpl;
      repeat split; intros H; repeat (destruct H as [H|H]; [discriminate|]); exact H. }
  destruct Hno as (HH & HM & HS).
  now rewrite !group_value_absent by assumption.
Qed.

(** X11. The simple scraper cuts a date string to ten characters before it
    tries its four formats, so the fourth, with a time of day, never
    matches: the date of an item is the one the three day formats give, and
    it is always a midnight, whatever time the string carried. *)
Theorem simple_item_date_is_a_day :
  (forall date_str,
      first_format date_str simple_formats = first_format date_str simple_day_formats) /\
  (forall item d,
      simple_item_date item = Some d ->
      hour d = 0 /\ minute d = 0 /\ second d = 0 /\ microsecond d = 0).
Proof.
  assert (Hsame : forall date_str,
             first_format date_str simple_formats
             = first_format date_str simple_day_formats).
  { intros date_str. unfold simple_formats, simple_day_formats. cbn [first_format].
    now rewrite strptime_time_format_dead. }
  split; [exact Hsame|].
  intros item d. unfold simple_item_date.
  induction simple_date_fields as [|field rest IH]; cbn [simple_item_date_in];
    [discriminate|].
  destruct (dict_get item field) as [v|]; [|exact IH].
  destruct (truthy v); [|exact IH].
  rewrite Hsame.
  destruct (first_format (py_str v) simple_day_formats) as [d'|] eqn:Hp; [|exact IH].
  intros [= <-]. clear IH. revert Hp. generalize (py_str v). intros date_str.
  assert (Hgen : forall formats,
             (forall fmt, In fmt formats -> In fmt simple_day_formats) ->
             first_format date_str formats = Some d' ->
             hour d' = 0 /\ minute d' = 0 /\ second d' = 0 /\ microsecond d' = 0).
  { induction formats as [|fmt formats IHf]; cbn [first_format]; intros Hsub;
      [discriminate|].
    destruct (strptime _ fmt) as [d''|] eqn:Hs.
    - intros [= <-]. eapply strptime_day_format_midnight; [|exact Hs].
      apply Hsub. now left.
    - apply IHf. intros f Hf. apply Hsub. now right. }
  apply Hgen. auto.
Qed.

Lemma simple_item_date_is_a_day_witness :
  simple_item_date (dated "2024-12-31T23:59:59Z") = Some (naive_date 2024 12 31) /\
  hour (naive_date 2024 12 31) = 0.
Proof.
  split; [reflexivity|].
  apply (proj2 simple_item_date_is_a_day (dated "2024-12-31T23:59:59Z")). reflexivity.
Defined.

(** ** The handlers *)

(** X12. The scorecard scraper's response handler is the stricter one:
    every response it captures is also captured by the simple scraper's
    handler, and the request with the same URL is recorded by the scorecard
    scraper's request handler. *)
Theorem scorecard_capture_is_stricter :
  forall r q,
    req_url q = resp_url r ->
    captures scorecard_handle_response r = true ->
    captures simple_handle_response r = true /\
    scorecard_handle_request q [] = [q].
Proof.
  intros r q Hurl. unfold captures, scorecard_handle_response, simple_handle_response,
    scorecard_handle_request. rewrite Hurl. cbn [existsb].
  destruct (contains "api" (lower (resp_url r))), (contains "data" (lower (resp_url r))),
    (contains "json" (lower (resp_url r))); cbn [orb andb];
    try discriminate;
    destruct (resp_status r =? 200); try discriminate;
    destruct (contains "json" (content_type_lower r)); try discriminate;
    destruct (resp_body r); try discriminate; intros _; split; reflexivity.
Qed.

Lemma scorecard_capture_is_stricter_witness :
  captures simple_handle_response
    {| resp_url := "https://umpscorecards.com/API/umpires";
       resp_status := 200;
       resp_headers := [("content-type", "Application/JSON; charset=utf-8")];
       resp_body := Some (JList []) |} = true /\
  scorecard_handle_request
    {| req_url := "https://umpscorecards.com/API/umpires"; req_method := "GET";
       req_headers := []; req_resource_type := "fetch" |} []
  = [{| req_url := "https://umpscorecards.com/API/umpires"; req_method := "GET";
        req_headers := []; req_resource_type := "fetch" |}].
Proof.
  apply scorecard_capture_is_stricter; reflexivity.
Defined.

(** ** The records of several responses *)

Lemma same_shape_refl h : same_shape h h.
Proof. intros l. repeat split; eauto. Qed.

Lemma same_shape_is_dict_val h h' v :
  same_shape h h' -> is_dict_val h' v = is_dict_val h v.
Proof.
  intros Hs. destruct v as [| | | | |l]; try reflexivity.
  destruct (Hs l) as (Hlist & Hdict & Hnone). unfold is_dict_val.
  destruct (h !! l) as [[es|items]|] eqn:Hl.
  - destruct (Hdict es eq_refl) as [es' ->]. reflexivity.
  - now rewrite (Hlist items eq_refl).
  - now rewrite (Hnone eq_refl).
Qed.

Lemma same_shape_records_of h h' r :
  same_shape h h' -> records_of h' r = records_of h r.
Proof.
  intros Hs. unfold records_of. destruct (hr_data r) as [| | | | |l]; try reflexivity.
  destruct (Hs l) as (Hlist & Hdict & Hnone).
  destruct (h !! l) as [[es|items]|] eqn:Hl.
  - destruct (Hdict es eq_refl) as [es' ->]. reflexivity.
  - rewrite (Hlist items eq_refl). apply filter_ext. intros v.
    now apply same_shape_is_dict_val.
  - now rewrite (Hnone eq_refl).
Qed.

Section several_responses.
Variable tag : string -> pstate -> val -> pstate.
Variable prov_keys : list string.
Variable provenance : string -> nat -> pstate -> val -> Prop.
Hypothesis Htag : tag_spec tag prov_keys provenance.

Lemma process_items_state url items :
  forall st acc acc',
    snd (process_items tag url items st acc) = snd (process_items tag url items st acc').
Proof.
  induction items as [|item items IH]; simpl; intros st acc acc'; [reflexivity|].
  destruct (is_dict_val (st_heap st) item); apply IH.
Qed.

Lemma process_response_acc r st acc :
  process_response tag r st acc
  = (acc ++ fst (process_response tag r st []), snd (process_response tag r st [])).
Proof.
  unfold process_response. destruct (hr_data r) as [| | | | |l];
    try (now rewrite app_nil_r).
  destruct (st_heap st !! l) as [[es|items]|]; try (now rewrite app_nil_r); try reflexivity.
  rewrite (surjective_pairing (process_items tag (hr_url r) items st acc)).
  rewrite !(process_items_records _ _ _ Htag), (process_items_state _ _ st acc []).
  reflexivity.
Qed.

Lemma process_response_same_shape r st :
  same_shape (st_heap st) (st_heap (snd (process_response tag r st []))).
Proof.
  intros l.
  assert (Hd : is_dict_val (st_heap (snd (process_response tag r st []))) (VRef l)
               = is_dict_val (st_heap st) (VRef l)).
  { unfold process_response. destruct (hr_data r) as [| | | | |l0]; try reflexivity.
    destruct (st_heap st !! l0) as [[es|items]|]; try reflexivity.
    - apply (tag_is_dict _ _ _ Htag).
    - apply (process_items_is_dict _ _ _ Htag). }
  assert (Hframe : is_dict_val (st_heap st) (VRef l) = false ->
                   st_heap (snd (process_response tag r st [])) !! l = st_heap st !! l).
  { intros Hnot. apply (process_response_frame _ _ _ Htag). intros Hin.
    apply (process_response_records_are_dicts _ _ _ Htag) in Hin. congruence. }
  unfold is_dict_val in Hd, Hframe. repeat split.
  - intros items Hl. rewrite <- Hl. apply Hframe. now rewrite Hl.
  - intros es Hl. rewrite Hl in Hd.
    destruct (st_heap (snd (process_response tag r st [])) !! l) as [[es'|items']|];
      try discriminate. now exists es'.
  - intros Hl. rewrite <- Hl. apply Hframe. now rewrite Hl.
Qed.

Lemma process_responses_records responses :
  forall st acc,
    fst (process_responses tag responses st acc)
    = acc ++ flat_map (records_of (st_heap st)) responses.
Proof.
  induction responses as [|r responses IH]; simpl; intros st acc.
  - now rewrite app_nil_r.
  - rewrite process_response_acc, IH, <- app_assoc. f_equal.
    rewrite (process_response_records _ _ _ Htag). f_equal.
    apply flat_map_ext. intros r'. apply same_shape_records_of.
    apply process_response_same_shape.
Qed.
End several_responses.

(** A run over two captures: a sequence of two mappings, then one mapping. *)
Lemma two_captures_three_records :
  let '(r1, h1) := load_response three_element_capture [] in
  let '(r2, h2) := load_response {| cap_url := "https://umpscorecards.com/api/games/7";
                                   cap_data := JDict [("game", JInt 7)] |} h1 in
  fst (process_responses (scorecard_tag ticking_clock "Pat Hoberg") [r1; r2]
         {| st_heap := h2; st_clock := 0 |} [])
  = [VRef 0%nat; VRef 1%nat; VRef 3%nat].
Proof. reflexivity. Qed.

(** X13. Over several captured responses, both scrapers collect the records
    of each response in capture order: the mapping elements of a sequence
    body, a mapping body itself, nothing from any other body, all read off
    the heap as it was before the loop; tagging the records of one response
    neither adds nor removes a record of another. *)
Theorem process_responses_collects_in_order :
  forall now_isoformat umpire_name responses st,
    fst (process_responses (scorecard_tag now_isoformat umpire_name) responses st [])
    = flat_map (records_of (st_heap st)) responses /\
    fst (process_responses (simple_tag now_isoformat umpire_name) responses st [])
    = flat_map (records_of (st_heap st)) responses.
Proof.
  intros now_isoformat umpire_name responses st. split.
  - apply (process_responses_records _ _ _ (scorecard_tag_spec now_isoformat umpire_name)).
  - apply (process_responses_records _ _ _ (simple_tag_spec now_isoformat umpire_name)).
Qed.

(** ** One game *)

Lemma set_item_length h target k v : length (set_item h target k v) = length h.
Proof.
  unfold set_item. destruct target as [| | | | |l]; try reflexivity.
  destruct (h !! l) as [[es|vs]|]; try reflexivity. apply length_insert.
Qed.

(** X14. [get_game_data_async] returns the first captured body that is a
    mapping, with the game id written into it in place, and touches no other
    object; the responses after it are not looked at.  When no body is a
    mapping it returns a new empty mapping and changes nothing that was
    there. *)
Theorem game_data_first_mapping :
  forall now_isoformat game_id before after st,
    Forall (fun r => is_dict_val (st_heap st) (hr_data r) = false) before ->
    (forall r,
        is_dict_val (st_heap st) (hr_data r) = true ->
        let result := game_data_loop now_isoformat game_id (before ++ r :: after) st in
        fst result = hr_data r /\
        get_item (st_heap (snd result)) (hr_data r) "game_id" = Some (VStr game_id) /\
        get_item (st_heap (snd result)) (hr_data r) "scraped_at"
        = Some (VStr (now_isoformat (st_clock st))) /\
        (forall l, hr_data r <> VRef l -> st_heap (snd result) !! l = st_heap st !! l)) /\
    (let result := game_data_loop now_isoformat game_id before st in
     fst result = VRef (length (st_heap st)) /\
     st_heap (snd result) = st_heap st ++ [ODict []] /\
     st_clock (snd result) = st_clock st).
Proof.
  intros now_isoformat game_id before after st Hbefore.
  induction Hbefore as [|r0 before Hr0 Hbefore IH].
  - split; [|repeat split].
    intros r Hr result. subst result. cbn [app game_data_loop]. rewrite Hr. simpl.
    repeat split.
    + rewrite !get_item_set_item, !set_item_is_dict_val, Hr, bool_decide_eq_true_2; done.
    + rewrite !get_item_set_item, !set_item_is_dict_val, Hr, bool_decide_eq_true_2; done.
    + intros l Hne. now rewrite !set_item_lookup_ne.
  - destruct IH as [IHsome IHnone]. split.
    + intros r Hr. cbn [app game_data_loop]. rewrite Hr0. now apply IHsome.
    + cbn [game_data_loop]. rewrite Hr0. exact IHnone.
Qed.

Lemma game_data_first_mapping_witness :
  let '(r1, h1) := load_response {| cap_url := "https://umpscorecards.com/api/list";
                                   cap_data := JList [JInt 1] |} [] in
  let '(r2, h2) := load_response {| cap_url := "https://umpscorecards.com/api/games/7";
                                   cap_data := JDict [("home", JStr "NYY")] |} h1 in
  let st := {| st_heap := h2; st_clock := 0 |} in
  fst (game_data_loop ticking_clock "715723" ([r1] ++ r2 :: [r1]) st) = hr_data r2 /\
  fst (game_data_loop ticking_clock "715723" [r1] st) = VRef 2%nat.
Proof.
  pose proof (game_data_first_mapping ticking_clock "715723"
                [{| hr_url := "https://umpscorecards.com/api/list"; hr_data := VRef 0%nat |}]
                [{| hr_url := "https://umpscorecards.com/api/list"; hr_data := VRef 0%nat |}]
                {| st_heap := [OList [VInt 1]; ODict [("home", VStr "NYY")]];
                   st_clock := 0 |}
                ltac:(repeat constructor)) as [Hsome Hnone].
  split.
  - apply (Hsome {| hr_url := "https://umpscorecards.com/api/games/7";
                    hr_data := VRef 1%nat |}). reflexivity.
  - apply Hnone.
Defined.

(** ** Several umpires *)

Lemma filter_flat_map_comm {A B} (f : B -> bool) (g : A -> list B) (l : list A) :
  List.filter f (flat_map g l) = flat_map (fun x => List.filter f (g x)) l.
Proof.
  induction l as [|x l IH]; simpl; [reflexivity|]. now rewrite List.filter_app, IH.
Qed.

Section multiple_umpires_properties.
Variable scrape_umpire_page : string -> result (list dict).
Variables start_date end_date : option string.
(** What the date filter makes of the records of one page. *)
Variable per_page : list dict -> list dict.
Hypothesis Hper_page :
  forall data, snd (simple_scrape_one (fun _ => Ok data) EmptyString start_date end_date)
               = Ok (per_page data).

Lemma scrape_multiple_umpires_data umpire_names :
  forall all_data,
    snd (scrape_multiple_umpires scrape_umpire_page umpire_names start_date end_date all_data)
    = all_data ++ flat_map (fun name => match scrape_umpire_page name with
                                        | Ok data => per_page data
                                        | Raise _ => []
                                        end) umpire_names.
Proof.
  induction umpire_names as [|name rest IH]; cbn [scrape_multiple_umpires flat_map];
    intros all_data; [now rewrite app_nil_r|].
  unfold simple_scrape_one at 1.
  destruct (scrape_umpire_page name) as [data|e].
  - pose proof (Hper_page data) as Hpage. unfold simple_scrape_one in Hpage.
    destruct (if bound_given start_date || bound_given end_date
              then simple_filter_by_date_range data start_date end_date
              else ([], Ok data)) as [logs [umpire_data|e]]; simpl in Hpage;
      [|discriminate].
    injection Hpage as ->.
    specialize (IH (all_data ++ per_page data)).
    destruct (scrape_multiple_umpires _ rest _ _ _) as [logs' out]. simpl in *.
    now rewrite IH, <- app_assoc.
  - specialize (IH all_data).
    destruct (scrape_multiple_umpires _ rest _ _ _) as [logs' out]. simpl in *.
    now rewrite IH.
Qed.
End multiple_umpires_properties.



Lemma bulk_scrape_data_no_bounds parse collect umpire_names :
  forall all_data,
    snd (bulk_scrape parse collect umpire_names None None all_data)
    = all_data ++ merged_pages collect umpire_names.
Proof.
  induction umpire_names as [|name rest IH]; cbn [bulk_scrape merged_pages flat_map];
    intros all_data; [now rewrite app_nil_r|].
  unfold get_umpire_data. simpl. destruct (collect name) as [data|e].
  - specialize (IH (all_data ++ data)).
    destruct (bulk_scrape parse collect rest None None _) as [logs' out]. simpl in *.
    now rewrite IH, <- app_assoc.
  - specialize (IH all_data).
    destruct (bulk_scrape parse collect rest None None _) as [logs' out]. simpl in *.
    now rewrite IH.
Qed.

Lemma bulk_scrape_data_bad_start parse collect start_date end_date e umpire_names :
  truthy_str start_date = true -> parse start_date = Raise e ->
  forall all_data,
    snd (bulk_scrape parse collect umpire_names (Some start_date) end_date all_data)
    = all_data.
Proof.
  intros Hgiven Hparse.
  induction umpire_names as [|name rest IH]; cbn [bulk_scrape]; intros all_data;
    [reflexivity|].
  assert (Hraise : exists logs e', get_umpire_data parse collect name (Some start_date) end_date
                                   = (logs, Raise e')).
  { unfold get_umpire_data. destruct (collect name) as [data|e0]; [|eauto].
    unfold scorecard_filter_by_date_range, scorecard_bound. simpl.
    rewrite Hgiven, Hparse. simpl. eauto. }
  destruct Hraise as (logs & e' & ->).
  specialize (IH all_data).
  destruct (bulk_scrape parse collect rest (Some start_date) end_date all_data)
    as [logs' out].
  exact IH.
Qed.

(** X16. [bulk_scrape] of the scorecard scraper catches every exception of
    an umpire and goes on.  With no bounds it returns the merged pages; with
    a start bound the parser rejects, every umpire fails in the date filter
    and it returns no record at all, whatever the pages held. *)
Theorem bulk_scrape_merges_or_loses_all :
  forall parse collect umpire_names,
    snd (bulk_scrape parse collect umpire_names None None [])
    = merged_pages collect umpire_names /\
    (forall start_date end_date e,
        truthy_str start_date = true -> parse start_date = Raise e ->
        snd (bulk_scrape parse collect umpire_names (Some start_date) end_date []) = []).
Proof.
  intros parse collect umpire_names. split.
  - apply (bulk_scrape_data_no_bounds parse collect umpire_names []).
  - intros start_date end_date e Hgiven Hparse.
    now apply (bulk_scrape_data_bad_start parse collect start_date end_date e).
Qed.

Lemma bulk_scrape_merges_or_loses_all_witness :
  snd (bulk_scrape dateutil_sample two_pages ["Pat Hoberg"; "Joe West"]
         (Some "garbage") None []) = [].
Proof.
  apply (proj2 (bulk_scrape_merges_or_loses_all dateutil_sample two_pages
                  ["Pat Hoberg"; "Joe West"]) "garbage" None ValueError); reflexivity.
Defined.
